(** * Geolocation_Tracker.py: a shallow embedding and its properties

    The script keeps a module-level dictionary [geo_cache], talks to the
    geolocation provider through a [requests] session mounted with a retry
    policy, and drives a six-entry menu around one local variable,
    [last_geo_data].

    Python's effects are made explicit.  A computation is a function from a
    [world] (the cache, what is left on standard input, what was printed,
    the log of outbound attempts, of back-off sleeps and of collaborator
    calls) to a result, which is a value or a raised exception, and the
    next world.  What the outside does (the provider's answer to each
    attempt, whether the map library or the file system fails) is read from
    an [env].

    The script is first read before a provider of plain replies whose
    bodies the decoder reads ([send], [response_json]).  The session and
    the decoder before any provider, with redirects, [Retry-After] and the
    limits of the interpreter, follow ([session_get_wire], [json_limited],
    [get_ip_geolocation_wire]); before a provider of plain replies that
    stays within the limits the two agree. *)

From Stdlib Require Import ZArith Lia Ascii String SpecFloat.
From stdpp Require Import base option list strings gmap.

Set Warnings "-register-all".

Local Open Scope string_scope.
Local Open Scope list_scope.
Local Open Scope Z_scope.

(** ** Python values *)

(** The values [response.json()] can produce.  Python's [None] is [JNull]:
    the script uses it both for JSON null and for "no data".  A dictionary
    is kept as the list of its items, keys distinct, read with [py_get]. *)
Inductive json : Type :=
| JNull
| JBool (b : bool)
| JInt (n : Z)
| JFloat (f : spec_float)
| JStr (s : string)
| JList (l : list json)
| JDict (d : list (string * json)).

(** Truth value testing, as [if geo_data:] does it. *)
Definition truthy (v : json) : bool :=
  match v with
  | JNull => false
  | JBool b => b
  | JInt n => negb (Z.eqb n 0)
  | JFloat (S754_zero _) => false
  | JFloat _ => true
  | JStr s => negb (String.eqb s "")
  | JList l => match l with [] => false | _ => true end
  | JDict d => match d with [] => false | _ => true end
  end.

Fixpoint assoc (k : string) (d : list (string * json)) : option json :=
  match d with
  | [] => None
  | (k', v) :: d' => if String.eqb k k' then Some v else assoc k d'
  end.

(** [d.get(k, default)] on a dictionary. *)
Definition py_get (d : list (string * json)) (k : string) (default : json) : json :=
  match assoc k d with
  | Some v => v
  | None => default
  end.

(** ** Text builtins *)

(** A text is the list of its characters, a character a code point below
    256.  The characters [str.isspace] holds of in that range: the codes 9
    to 13, 28 to 32, 133 (next line) and 160 (no-break space). *)
Definition is_space (c : ascii) : bool :=
  let n := N_of_ascii c in
  ((9 <=? n) && (n <=? 13) || (28 <=? n) && (n <=? 32)
   || (n =? 133) || (n =? 160))%N.

Fixpoint lstrip (s : string) : string :=
  match s with
  | EmptyString => EmptyString
  | String c s' => if is_space c then lstrip s' else s
  end.

Fixpoint rstrip (s : string) : string :=
  match s with
  | EmptyString => EmptyString
  | String c s' =>
      match rstrip s' with
      | EmptyString => if is_space c then EmptyString else String c EmptyString
      | r => String c r
      end
  end.

(** [s.strip()] *)
Definition strip (s : string) : string := rstrip (lstrip s).

(** The capitals below 256, A to Z and the accented ones from 192 to 222
    (215, the multiplication sign, is not one), lie 32 below their small
    letters. *)
Definition lower_ascii (c : ascii) : ascii :=
  let n := N_of_ascii c in
  if ((65 <=? n) && (n <=? 90)
      || (192 <=? n) && (n <=? 222) && negb (n =? 215))%N
  then ascii_of_N (n + 32) else c.

(** [s.lower()] *)
Fixpoint lower (s : string) : string :=
  match s with
  | EmptyString => EmptyString
  | String c s' => String (lower_ascii c) (lower s')
  end.

(** [s.split(",")]: one more part than there are commas. *)
Fixpoint split_comma (s : string) : list string :=
  match s with
  | EmptyString => [EmptyString]
  | String c s' =>
      if Ascii.eqb c ","%char then EmptyString :: split_comma s'
      else match split_comma s' with
           | [] => [String c EmptyString]
           | p :: ps => String c p :: ps
           end
  end.

(** The two conversions the script applies to what the user typed or the
    provider sent: [int(text)] and [float(text)].  [None] stands for the
    [ValueError] they raise.  The development holds for every such pair of
    conversions. *)
Class Builtins := {
  py_int : string -> option Z;
  py_float : string -> option spec_float
}.

(** ** Exceptions *)

(** The exceptions that can travel through the script.  The first nine are
    classes of [requests.exceptions], all below [RequestException];
    [ConnectTimeout] and [ReadTimeout] are below [Timeout];
    [JSONDecodeError] is what [response.json()] raises on a body that is
    not JSON.  The others are Python's own. *)
Inductive exn : Type :=
| ConnectTimeout
| ReadTimeout
| HTTPError (status : Z)
| ConnectionError
| RetryError
| JSONDecodeError
| TooManyRedirects
| InvalidHeader
| InvalidSchema
| ValueError
| RecursionError
| AttributeError
| EOFError
| OtherError (msg : string).

Definition is_Timeout (e : exn) : bool :=
  match e with ConnectTimeout | ReadTimeout => true | _ => false end.

Definition is_HTTPError (e : exn) : bool :=
  match e with HTTPError _ => true | _ => false end.

Definition is_RequestException (e : exn) : bool :=
  match e with
  | ConnectTimeout | ReadTimeout | HTTPError _
  | ConnectionError | RetryError | JSONDecodeError
  | TooManyRedirects | InvalidHeader | InvalidSchema => true
  | _ => false
  end.

Definition is_ValueError (e : exn) : bool :=
  match e with ValueError => true | _ => false end.

(** ** The world *)

(** A printed line: literal text and formatted values, in order. *)
Inductive piece : Type :=
| T (s : string)
| V (v : json)
| X (e : exn)
| F (f : spec_float)
| Zs (l : list Z).

Definition line : Type := list piece.

(** One outbound HTTP attempt: [GET url?params], with the timeout. *)
Record request := {
  req_url : string;
  req_params : list (string * string);
  req_timeout : Z
}.

(** What one attempt meets.  A reply carries its status and its body, the
    body as the value it parses to ([None]: it is not JSON).  A provider
    of this type sends plain replies: they carry neither a [Location]
    header, which would make the session follow a redirect, nor a
    [Retry-After] header, which would set the pause.  The headers come
    with [headers] and [send_wire] further down. *)
Inductive attempt : Type :=
| Reply (status : Z) (body : option json)
| ConnectTimedOut  (* no connection within the timeout *)
| ReadTimedOut     (* connected, no reply within the timeout *)
| ConnectFailed.   (* no connection, or one that broke *)

(** Calls to the collaborators: the map library, the browser, the file. *)
Inductive effect : Type :=
| FoliumMap (latitude longitude : spec_float) (zoom_start : Z)
| FoliumMarker (latitude longitude : spec_float) (popup : line) (color : string)
| MapSave (filename : string)
| BrowserOpen (filename : string)
| FileAppend (filename : string) (data : json).

Record env := {
  (** the provider's answer to the [n]-th outbound attempt of the process *)
  provider : nat -> request -> attempt;
  (** the message of the exception a collaborator call ends in, if any *)
  collab_error : effect -> option string
}.

Record world := {
  geo_cache : gmap string json;
  stdin : list string;
  stdout : list line;
  net : list request;
  sleeps : list Z;
  effects : list effect
}.

Definition set_cache (c : gmap string json) (w : world) : world :=
  {| geo_cache := c; stdin := stdin w; stdout := stdout w; net := net w;
     sleeps := sleeps w; effects := effects w |}.
Definition set_stdin (i : list string) (w : world) : world :=
  {| geo_cache := geo_cache w; stdin := i; stdout := stdout w; net := net w;
     sleeps := sleeps w; effects := effects w |}.
Definition add_stdout (l : line) (w : world) : world :=
  {| geo_cache := geo_cache w; stdin := stdin w; stdout := stdout w ++ [l];
     net := net w; sleeps := sleeps w; effects := effects w |}.
Definition add_net (r : request) (w : world) : world :=
  {| geo_cache := geo_cache w; stdin := stdin w; stdout := stdout w;
     net := net w ++ [r]; sleeps := sleeps w; effects := effects w |}.
Definition add_sleep (d : Z) (w : world) : world :=
  {| geo_cache := geo_cache w; stdin := stdin w; stdout := stdout w;
     net := net w; sleeps := sleeps w ++ [d]; effects := effects w |}.
Definition add_effect (e : effect) (w : world) : world :=
  {| geo_cache := geo_cache w; stdin := stdin w; stdout := stdout w;
     net := net w; sleeps := sleeps w; effects := effects w ++ [e] |}.

(** ** Computations *)

Inductive res (A : Type) : Type :=
| Ok (a : A)
| Raise (e : exn).
Arguments Ok {A} a.
Arguments Raise {A} e.

Definition M (A : Type) : Type := world -> res A * world.

Definition ret {A} (a : A) : M A := fun w => (Ok a, w).
Definition raise {A} (e : exn) : M A := fun w => (Raise e, w).
Definition bind {A B} (m : M A) (k : A -> M B) : M B :=
  fun w => match m w with
           | (Ok a, w') => k a w'
           | (Raise e, w') => (Raise e, w')
           end.

(** [try: m  except <classes of handles>: h]: an exception the handler
    does not take travels on. *)
Definition try_except {A} (m : M A) (handles : exn -> bool) (h : exn -> M A) : M A :=
  fun w => match m w with
           | (Ok a, w') => (Ok a, w')
           | (Raise e, w') => if handles e then h e w' else (Raise e, w')
           end.

Declare Scope py_scope.
Delimit Scope py_scope with py.
Notation "x <- m ;; k" := (bind m (fun x => k))
  (at level 100, m at next level, right associativity) : py_scope.
Notation "m ;;; k" := (bind m (fun _ => k))
  (at level 100, right associativity) : py_scope.
Local Open Scope py_scope.

Definition get_world : M world := fun w => (Ok w, w).
Definition modify (f : world -> world) : M unit := fun w => (Ok tt, f w).

(** [print(...)]; what is printed is taken to be text the output can
    encode. *)
Definition print (l : line) : M unit := modify (add_stdout l).

(** [input(prompt)]: the prompt is written, one line is read; at the end
    of the input Python raises [EOFError]. *)
Definition input (prompt : string) : M string :=
  print [T prompt] ;;;
  w <- get_world ;;
  match stdin w with
  | [] => raise EOFError
  | l :: rest => modify (set_stdin rest) ;;; ret l
  end.

(** A collaborator call: logged, then it returns or raises. *)
Definition call (E : env) (c : effect) : M unit :=
  modify (add_effect c) ;;;
  match collab_error E c with
  | Some msg => raise (OtherError msg)
  | None => ret tt
  end.

(** ** The session and its retry policy *)

(** [Retry(total=..., backoff_factor=..., status_forcelist=[...])]: the
    three options the script sets; the others keep the library's defaults
    (GET is a method that is retried, the back-off is capped at 120 s). *)
Record Retry := {
  total : nat;
  backoff_factor : Z;
  status_forcelist : list Z
}.

(** The session: the adapter mounted for [https://] and its policy. *)
Record Session := { max_retries : Retry }.

Definition setup_session : Session :=
  {| max_retries :=
       {| total := 3; backoff_factor := 1;
          status_forcelist := [429; 500; 502; 503; 504] |} |}.

Record response := {
  status_code : Z;
  body : option json
}.

Definition backoff_max : Z := 120.

(** The pause before the next try, after [errors] failed tries in a row:
    none after the first, then [backoff_factor * 2 ^ (errors - 1)]. *)
Definition get_backoff_time (p : Retry) (errors : nat) : Z :=
  match errors with
  | O | S O => 0
  | S n => Z.min backoff_max (backoff_factor p * 2 ^ Z.of_nat n)
  end.

(** [session.get(url, params=params, timeout=timeout)].

    This loop is the HTTP library's, not the script's; it follows the
    library's documented reading of the policy.  Every try is one outbound
    attempt.  A reply whose status is in [status_forcelist], a timeout and
    a failed connection are retried while retries are left ([left] counts
    them down from [total]), after the back-off pause.  When none is left
    the session raises: [ConnectTimeout] after a connect timeout,
    [RetryError] after a listed status, [ConnectionError] otherwise.  Any
    other reply is handed back as it is.  This is the session before a
    provider of plain replies; [session_get_wire] is the session before
    any provider. *)
Fixpoint send (E : env) (p : Retry) (r : request) (left errors : nat) : M response :=
  let again (e : exn) : M response :=
    match left with
    | O => raise e
    | S left' =>
        modify (add_sleep (get_backoff_time p (S errors))) ;;;
        send E p r left' (S errors)
    end in
  w <- get_world ;;
  modify (add_net r) ;;;
  match provider E (length (net w)) r with
  | Reply st b =>
      if bool_decide (st ∈ status_forcelist p) then again RetryError
      else ret {| status_code := st; body := b |}
  | ConnectTimedOut => again ConnectTimeout
  | ReadTimedOut => again ConnectionError
  | ConnectFailed => again ConnectionError
  end.

Definition session_get (E : env) (session : option Session)
    (url : string) (params : list (string * string)) (timeout : Z) : M response :=
  match session with
  | None => raise AttributeError
  | Some s =>
      send E (max_retries s)
        {| req_url := url; req_params := params; req_timeout := timeout |}
        (total (max_retries s)) 0
  end.

(** [response.raise_for_status()] *)
Definition raise_for_status (r : response) : M unit :=
  if (400 <=? status_code r) && (status_code r <? 600)
  then raise (HTTPError (status_code r))
  else ret tt.

(** [response.json()], of a body the decoder reads within the limits of
    the interpreter; [json_limited] below has the limits. *)
Definition response_json (r : response) : M json :=
  match body r with
  | Some v => ret v
  | None => raise JSONDecodeError
  end.

(** ** get_ip_geolocation *)

Definition API_KEY : string := "20020022f148d7".

(** [repr] of a text without quotes, backslashes or control characters. *)
Definition py_repr (s : string) : string := ("'" ++ s ++ "'")%string.

Fixpoint str_items (items : list (string * string)) : string :=
  match items with
  | [] => ""
  | [(k, v)] => (py_repr k ++ ": " ++ py_repr v)%string
  | (k, v) :: rest => (py_repr k ++ ": " ++ py_repr v ++ ", " ++ str_items rest)%string
  end.

(** [str(params)] *)
Definition str_params (params : list (string * string)) : string :=
  ("{" ++ str_items params ++ "}")%string.

(** An absent address and the empty text are both false for [if ip_address]. *)
Definition build_url (ip_address : option string) : string :=
  match ip_address with
  | Some a => if String.eqb a "" then "https://ipinfo.io/json"
              else ("https://ipinfo.io/" ++ a ++ "/json")%string
  | None => "https://ipinfo.io/json"
  end.

Definition build_params (api_key : string) : list (string * string) :=
  if String.eqb api_key "" then [] else [("token", api_key)].

Definition cache_key_with (api_key : string) (ip_address : option string) : string :=
  (build_url ip_address ++ str_params (build_params api_key))%string.

Definition cache_key : option string -> string := cache_key_with API_KEY.

(** The body of the [try]. *)
Definition try_fetch (E : env) (session : option Session)
    (url : string) (params : list (string * string)) (key : string) : M json :=
  response <- session_get E session url params 5 ;;
  raise_for_status response ;;;
  geo_data <- response_json response ;;
  modify (fun w => set_cache (<[key := geo_data]> (geo_cache w)) w) ;;;
  ret geo_data.

(** The three [except] clauses, in their order; each prints and falls
    through to [return None]. *)
Definition fetch_notice (e : exn) : line :=
  if is_Timeout e
  then [T "Error: Request timed out. Please check your connection."]
  else if is_HTTPError e
  then [T "HTTP error occurred: "; X e]
  else [T "Request error: "; X e].

(** The function with its local constant [API_KEY] as a parameter, so that
    the branch [params = {...} if API_KEY else {}] can be followed both
    ways. *)
Definition get_ip_geolocation_with (api_key : string) (E : env)
    (ip_address : option string) (session : option Session) : M json :=
  let url := build_url ip_address in
  let params := build_params api_key in
  let key := (url ++ str_params params)%string in
  w <- get_world ;;
  match geo_cache w !! key with
  | Some v => print [T "Using cached data..."] ;;; ret v
  | None =>
      try_except (try_fetch E session url params key) is_RequestException
        (fun e => print (fetch_notice e) ;;; ret JNull)
  end.

Definition get_ip_geolocation : env -> option string -> option Session -> M json :=
  get_ip_geolocation_with API_KEY.

(** ** The collaborators: map, file, display *)

Definition nl : string := String (ascii_of_nat 10) EmptyString.

Definition map_filename : string := "geolocation_map.html".

(** The popup text; the layout blanks of the literal are left out. *)
Definition popup_text (latitude longitude : spec_float) (details : json) : M line :=
  if truthy details then
    match details with
    | JDict d =>
        ret [T "<b>Location Details</b><br>";
             T "IP: "; V (py_get d "ip" (JStr "N/A")); T "<br>";
             T "City: "; V (py_get d "city" (JStr "N/A")); T "<br>";
             T "Region: "; V (py_get d "region" (JStr "N/A")); T "<br>";
             T "Country: "; V (py_get d "country" (JStr "N/A")); T "<br>";
             T "Coordinates: "; F latitude; T ", "; F longitude]
    | _ => raise AttributeError
    end
  else ret [T "Location"].

(** Whatever goes wrong inside is caught ([except Exception]) and printed. *)
Definition create_map (E : env) (latitude longitude : spec_float)
    (zoom_level : Z) (marker_color : string) (details : json) : M unit :=
  try_except
    (call E (FoliumMap latitude longitude zoom_level) ;;;
     popup <- popup_text latitude longitude details ;;
     call E (FoliumMarker latitude longitude popup marker_color) ;;;
     call E (MapSave map_filename) ;;;
     call E (BrowserOpen map_filename) ;;;
     print [T "Map has been saved and opened: "; T map_filename])
    (fun _ => true)
    (fun e => print [T "Error creating the map: "; X e]).

Definition save_to_file (E : env) (geo_data : json) (filename : string) : M unit :=
  try_except
    (call E (FileAppend filename geo_data) ;;;
     print [T "Geolocation data saved to "; T filename])
    (fun _ => true)
    (fun e => print [T "Error saving data to file: "; X e]).

(** [geo_data.get] exists on a dictionary only. *)
Definition display_details (geo_data : json) : M unit :=
  if negb (truthy geo_data) then print [T "No geolocation data to display."]
  else
    print [T (nl ++ "=== Geolocation Details ===")%string] ;;;
    match geo_data with
    | JDict d =>
        print [T "IP: "; V (py_get d "ip" (JStr "N/A"))] ;;;
        print [T "City: "; V (py_get d "city" (JStr "N/A"))] ;;;
        print [T "Region: "; V (py_get d "region" (JStr "N/A"))] ;;;
        print [T "Country: "; V (py_get d "country" (JStr "N/A"))] ;;;
        print [T "Organization: "; V (py_get d "org" (JStr "N/A"))] ;;;
        print [T "Timezone: "; V (py_get d "timezone" (JStr "N/A"))] ;;;
        print [T "Coordinates: "; V (py_get d "loc" (JStr "N/A"))]
    | _ => raise AttributeError
    end.

(** ** Reading the user's choices *)

Section Interaction.
Context `{Builtins}.

Definition rejected (valid_options : option (list Z)) (value : Z) : bool :=
  match valid_options with
  | Some (o :: os) => negb (bool_decide (value ∈ o :: os))
  | _ => false
  end.

(** [get_valid_input(prompt, valid_options, type_cast=int)]; every call of
    the script converts with [int].  The [while True] loop reads one line
    per round, so it is written by recursion on the lines that are left,
    with [input(prompt)] unfolded in place. *)
Fixpoint get_valid_input_loop (lines : list string) (prompt : string)
    (valid_options : option (list Z)) : M Z :=
  print [T prompt] ;;;
  match lines with
  | [] => raise EOFError
  | l :: rest =>
      modify (set_stdin rest) ;;;
      match py_int (strip l) with
      | Some value =>
          if rejected valid_options value then
            print [T "Please choose from: ";
                   Zs (match valid_options with Some os => os | None => [] end)] ;;;
            get_valid_input_loop rest prompt valid_options
          else ret value
      | None =>
          print [T "Invalid input! Please enter a valid number."] ;;;
          get_valid_input_loop rest prompt valid_options
      end
  end.

Definition get_valid_input (prompt : string) (valid_options : option (list Z)) : M Z :=
  w <- get_world ;;
  get_valid_input_loop (stdin w) prompt valid_options.

Definition display_menu : M Z :=
  print [T (nl ++ "=== IP Geolocation Tracker ===")%string] ;;;
  print [T "1. Geolocate my IP"] ;;;
  print [T "2. Geolocate a specific IP"] ;;;
  print [T "3. View last geolocation details"] ;;;
  print [T "4. Save last geolocation to file"] ;;;
  print [T "5. Create map with custom options"] ;;;
  print [T "6. Exit"] ;;;
  get_valid_input "Choose an option (1-6): " (Some [1; 2; 3; 4; 5; 6]).

(** ** main *)

Definition marker_colors : list string := ["red"; "blue"; "green"; "purple"; "orange"].

(** How one round of the menu loop ends: [continue] with the value of
    [last_geo_data], or [break]. *)
Inductive ctl : Type :=
| Continue (last_geo_data : json)
| Break.

(** Choices 1 and 2, after the address is known.  As for
    [get_ip_geolocation_with], the constant [API_KEY] is a parameter of the
    menu loop; [main] is the loop at the script's constant. *)
Definition locate (api_key : string) (E : env) (session : Session)
    (ip_address : option string) (last_geo_data : json) : M ctl :=
  geo_data <- get_ip_geolocation_with api_key E ip_address (Some session) ;;
  if truthy geo_data then
    display_details geo_data ;;; ret (Continue geo_data)
  else ret (Continue last_geo_data).

(** [last_geo_data.get("loc", "").split(",")]: [get] needs a dictionary,
    [split] a text. *)
Definition loc_parts (last_geo_data : json) : M (list string) :=
  match last_geo_data with
  | JDict d =>
      match py_get d "loc" (JStr "") with
      | JStr s => ret (split_comma s)
      | _ => raise AttributeError
      end
  | _ => raise AttributeError
  end.

(** The [try] of choice 5.  Its [continue] is the end of the action: nothing
    follows the [try] in the round. *)
Definition render_map_try (E : env) (last_geo_data : json) : M unit :=
  loc <- loc_parts last_geo_data ;;
  match loc with
  | [a; b] =>
      match py_float a with
      | None => raise ValueError
      | Some lat =>
          match py_float b with
          | None => raise ValueError
          | Some lon =>
              z <- get_valid_input "Enter zoom level (1-18, default 10): " None ;;
              zoom_level <-
                (if negb ((1 <=? z) && (z <=? 18)) then
                   print [T "Zoom level out of range. Using default (10)."] ;;; ret 10
                 else ret z) ;;
              print [T (nl ++ "Available marker colors: red, blue, green, purple, orange")%string] ;;;
              c <- input "Enter marker color (default blue): " ;;
              let marker_color := lower (strip c) in
              marker_color <-
                (if negb (bool_decide (marker_color ∈ marker_colors)) then
                   print [T "Invalid color. Using default (blue)."] ;;; ret "blue"
                 else ret marker_color) ;;
              create_map E lat lon zoom_level marker_color last_geo_data
          end
      end
  | _ => print [T "Error: Could not extract location data."]
  end.

(** Choice 5. *)
Definition render_map (E : env) (last_geo_data : json) : M unit :=
  if negb (truthy last_geo_data) then
    print [T (nl ++ "No geolocation data available. Fetch data first.")%string]
  else
    try_except (render_map_try E last_geo_data) is_ValueError
      (fun _ => print [T "Error: Invalid location data format."]).

(** The [if]/[elif] chain on the choice. *)
Definition dispatch (api_key : string) (E : env) (session : Session)
    (last_geo_data : json) (choice : Z) : M ctl :=
  if choice =? 1 then
    print [T (nl ++ "Fetching geolocation for your IP...")%string] ;;;
    locate api_key E session None last_geo_data
  else if choice =? 2 then
    l <- input (nl ++ "Enter IP address to geolocate: ")%string ;;
    let ip_address := strip l in
    print [T "Fetching geolocation for IP: "; T ip_address; T "..."] ;;;
    locate api_key E session (Some ip_address) last_geo_data
  else if choice =? 3 then
    (if truthy last_geo_data then display_details last_geo_data
     else print [T (nl ++ "No geolocation data available. Fetch data first.")%string]) ;;;
    ret (Continue last_geo_data)
  else if choice =? 4 then
    (if truthy last_geo_data then save_to_file E last_geo_data "geolocation_data.json"
     else print [T (nl ++ "No geolocation data to save. Fetch data first.")%string]) ;;;
    ret (Continue last_geo_data)
  else if choice =? 5 then
    render_map E last_geo_data ;;;
    ret (Continue last_geo_data)
  else if choice =? 6 then
    print [T (nl ++ "Exiting IP Geolocation Tracker. Goodbye!")%string] ;;;
    ret Break
  else ret (Continue last_geo_data).

(** The body of [while True]. *)
Definition main_body_with (api_key : string) (E : env) (session : Session)
    (last_geo_data : json) : M ctl :=
  choice <- display_menu ;;
  dispatch api_key E session last_geo_data choice.

(** The same round with the lookup as a parameter: [locate], [dispatch]
    and [main_body_with] over any function in the place of
    [get_ip_geolocation]. *)
Definition locate_by (lookup : option string -> option Session -> M json)
    (session : Session) (ip_address : option string) (last_geo_data : json) : M ctl :=
  geo_data <- lookup ip_address (Some session) ;;
  if truthy geo_data then
    display_details geo_data ;;; ret (Continue geo_data)
  else ret (Continue last_geo_data).

Definition dispatch_by (lookup : option string -> option Session -> M json)
    (E : env) (session : Session) (last_geo_data : json) (choice : Z) : M ctl :=
  if choice =? 1 then
    print [T (nl ++ "Fetching geolocation for your IP...")%string] ;;;
    locate_by lookup session None last_geo_data
  else if choice =? 2 then
    l <- input (nl ++ "Enter IP address to geolocate: ")%string ;;
    let ip_address := strip l in
    print [T "Fetching geolocation for IP: "; T ip_address; T "..."] ;;;
    locate_by lookup session (Some ip_address) last_geo_data
  else if choice =? 3 then
    (if truthy last_geo_data then display_details last_geo_data
     else print [T (nl ++ "No geolocation data available. Fetch data first.")%string]) ;;;
    ret (Continue last_geo_data)
  else if choice =? 4 then
    (if truthy last_geo_data then save_to_file E last_geo_data "geolocation_data.json"
     else print [T (nl ++ "No geolocation data to save. Fetch data first.")%string]) ;;;
    ret (Continue last_geo_data)
  else if choice =? 5 then
    render_map E last_geo_data ;;;
    ret (Continue last_geo_data)
  else if choice =? 6 then
    print [T (nl ++ "Exiting IP Geolocation Tracker. Goodbye!")%string] ;;;
    ret Break
  else ret (Continue last_geo_data).

Definition main_body_by (lookup : option string -> option Session -> M json)
    (E : env) (session : Session) (last_geo_data : json) : M ctl :=
  choice <- display_menu ;;
  dispatch_by lookup E session last_geo_data choice.

(** The loop.  Every round reads at least one line or ends the run, so one
    more round than there are lines is enough; [None] would say the rounds
    ran out. *)
Fixpoint main_loop (rounds : nat) (api_key : string) (E : env) (session : Session)
    (last_geo_data : json) : M (option unit) :=
  match rounds with
  | O => ret None
  | S rounds' =>
      c <- main_body_with api_key E session last_geo_data ;;
      match c with
      | Break => ret (Some tt)
      | Continue last_geo_data' => main_loop rounds' api_key E session last_geo_data'
      end
  end.

Definition main_with (api_key : string) (E : env) : M (option unit) :=
  w <- get_world ;;
  main_loop (S (length (stdin w))) api_key E setup_session JNull.

Definition main_body : env -> Session -> json -> M ctl := main_body_with API_KEY.

Definition main : env -> M (option unit) := main_with API_KEY.

End Interaction.

(** ** What the specification calls things *)

(** The failure taxonomy of the specification, and the failure it assigns
    to what one attempt meets: a timeout, a connection-level failure, a
    status outside 2xx, a 2xx body that does not parse. *)
Inductive GeoError : Type :=
| Timeout
| HttpError (status : Z)
| TransportError
| MalformedResponse.

Definition spec_error (a : attempt) : option GeoError :=
  match a with
  | ConnectTimedOut | ReadTimedOut => Some Timeout
  | ConnectFailed => Some TransportError
  | Reply st b =>
      if (200 <=? st) && (st <? 300)
      then match b with None => Some MalformedResponse | Some _ => None end
      else Some (HttpError st)
  end.

(** The retryable conditions as the specification lists them: a network
    timeout, any 5xx status, 429. *)
Definition spec_retryable (a : attempt) : bool :=
  match a with
  | ConnectTimedOut | ReadTimedOut => true
  | Reply st _ => (500 <=? st) && (st <? 600) || (st =? 429)
  | ConnectFailed => false
  end.

(** The retryable conditions of the policy the session is built with. *)
Definition retryable (p : Retry) (a : attempt) : bool :=
  match a with
  | Reply st _ => bool_decide (st ∈ status_forcelist p)
  | _ => true
  end.

(** What the session raises when the last try it is allowed meets [a]. *)
Definition exhausted (a : attempt) : exn :=
  match a with
  | Reply _ _ => RetryError
  | ConnectTimedOut => ConnectTimeout
  | ReadTimedOut | ConnectFailed => ConnectionError
  end.

(** A provider that meets every attempt the same way; no collaborator
    fails. *)
Definition always (a : attempt) : env :=
  {| provider := fun _ _ => a; collab_error := fun _ => None |}.

(** The request [get_ip_geolocation] sends for an address. *)
Definition request_for (api_key : string) (ip_address : option string) : request :=
  {| req_url := build_url ip_address; req_params := build_params api_key;
     req_timeout := 5 |}.

(** Absent and empty address are one request. *)
Definition effective_target (ip_address : option string) : option string :=
  match ip_address with
  | Some a => if String.eqb a "" then None else Some a
  | None => None
  end.

(** The worlds a process can be in later: after any number of further
    lookups and rounds of the menu loop. *)
Inductive later `{Builtins} : world -> world -> Prop :=
| later_now w : later w w
| later_fetch w w1 E ip session r w2 :
    later w w1 ->
    get_ip_geolocation E ip session w1 = (r, w2) ->
    later w w2
| later_round w w1 E session last r w2 :
    later w w1 ->
    main_body E session last w1 = (r, w2) ->
    later w w2.

(** The three ways choice 5 declines a record. *)
Definition render_refusals : list line :=
  [ [T (nl ++ "No geolocation data available. Fetch data first.")%string];
    [T "Error: Could not extract location data."];
    [T "Error: Invalid location data format."] ].

(** The location of record [d] is not usable in one of the ways choice 5
    has a refusal for: the field is absent, or it is a text that is not
    two comma-separated parts, or a text with a part that is not a number.
    A [loc] that is there and is not a text is none of these. *)
Definition malformed_loc `{Builtins} (d : list (string * json)) : Prop :=
  assoc "loc" d = None \/
  (exists s, assoc "loc" d = Some (JStr s) /\ length (split_comma s) <> 2%nat) \/
  (exists s a b, assoc "loc" d = Some (JStr s) /\ split_comma s = [a; b] /\
                 (py_float a = None \/ py_float b = None)).

(** A computation respects a relation between worlds when every run of it,
    returning or raising, takes a world to a related one. *)
Definition respects (R : world -> world -> Prop) {A} (m : M A) : Prop :=
  forall w r w', m w = (r, w') -> R w w'.

(** Entries of the cache stay as they are. *)
Definition cache_kept (w w' : world) : Prop :=
  forall k v, geo_cache w !! k = Some v -> geo_cache w' !! k = Some v.

(** Input is only ever consumed. *)
Definition stdin_consumed (w w' : world) : Prop :=
  (length (stdin w') <= length (stdin w))%nat.

(** Everything but the attempt and sleep logs is as it was. *)
Definition only_network (w w' : world) : Prop :=
  geo_cache w' = geo_cache w /\ stdin w' = stdin w /\
  stdout w' = stdout w /\ effects w' = effects w.


(** ** The session and the decoder before any provider *)

(** What a reply carries besides its status and its body, as far as the
    session acts on it: the address its [Location] header leads to, taken
    to be one the library can read, and the text of its [Retry-After]
    header ([None]: the reply has no such header). *)
Record headers := {
  location : option string;
  retry_after : option string
}.

Definition no_headers : headers := {| location := None; retry_after := None |}.

(** A provider with its headers: what the [n]-th outbound attempt of the
    process meets; the headers count on a reply only. *)
Definition wire : Type := nat -> request -> attempt * headers.

(** A provider of plain replies, seen as a [wire]. *)
Definition plainly (E : env) : wire := fun n r => (provider E n r, no_headers).

(** The replies of a [wire] without their headers. *)
Definition replies_of (P : wire) : env :=
  {| provider := fun n r => fst (P n r); collab_error := fun _ => None |}.

(** Every reply of the provider is plain. *)
Definition plain (P : wire) : Prop := forall n r, snd (P n r) = no_headers.

(** What a run depends on besides the provider and the user.  The
    interpreter converts no integer of more than [max_str_digits] digits
    (4300 unless it is configured otherwise; 0 lifts the limit) and
    follows containers only as deep as its stack has room for.  The HTTP
    library reads a [Retry-After] text as a pause in seconds: a count as
    it stands, a date as its distance from now; [None] is a text it can
    read as neither. *)
Record platform := {
  max_str_digits : Z;
  max_depth : nat;
  retry_after_seconds : string -> option Z
}.

Definition redirect_stati : list Z := [301; 302; 303; 307; 308].
Definition retry_after_stati : list Z := [413; 429; 503].
Definition max_redirects : nat := 30.

(** Whether the policy tries again after a reply: its status is listed, or
    retries are left and the reply asks for a pause with one of the
    statuses for which the library honours that. *)
Definition is_retry (p : Retry) (left : nat) (st : Z) (h : headers) : bool :=
  bool_decide (st ∈ status_forcelist p)
  || negb (Nat.eqb left 0)
     && match retry_after h with
        | Some t => negb (String.eqb t "")
        | None => false
        end
     && bool_decide (st ∈ retry_after_stati).

(** The adapter mounted for [https://]: [send] with the headers read.  A
    reply that is tried again and has a [Retry-After] header sets the
    pause itself, unless the pause it asks for is none; a header that
    cannot be read is an [InvalidHeader]. *)
Fixpoint send_wire (L : platform) (P : wire) (p : Retry) (r : request)
    (left errors : nat) : M (response * headers) :=
  let again (e : exn) (pause : option string) : M (response * headers) :=
    match left with
    | O => raise e
    | S left' =>
        match pause with
        | Some t =>
            match retry_after_seconds L t with
            | Some seconds =>
                modify (add_sleep (if 0 <? seconds then seconds
                                   else get_backoff_time p (S errors)))
            | None => raise InvalidHeader
            end
        | None => modify (add_sleep (get_backoff_time p (S errors)))
        end ;;;
        send_wire L P p r left' (S errors)
    end in
  w <- get_world ;;
  modify (add_net r) ;;;
  match P (length (net w)) r with
  | (Reply st b, h) =>
      if is_retry p left st h then again RetryError (retry_after h)
      else ret ({| status_code := st; body := b |}, h)
  | (ConnectTimedOut, _) => again ConnectTimeout None
  | (ReadTimedOut, _) => again ConnectionError None
  | (ConnectFailed, _) => again ConnectionError None
  end.

(** The adapter a session has for [http://] from the start: no retries,
    and a read that times out is not tried again. *)
Definition send_once (P : wire) (r : request) : M (response * headers) :=
  w <- get_world ;;
  modify (add_net r) ;;;
  match P (length (net w)) r with
  | (Reply st b, h) => ret ({| status_code := st; body := b |}, h)
  | (ConnectTimedOut, _) => raise ConnectTimeout
  | (ReadTimedOut, _) => raise ReadTimeout
  | (ConnectFailed, _) => raise ConnectionError
  end.

(** The adapter is chosen by the scheme of the address. *)
Definition adapter_send (L : platform) (P : wire) (s : Session) (r : request)
    : M (response * headers) :=
  if String.prefix "https://" (lower (req_url r))
  then send_wire L P (max_retries s) r (total (max_retries s)) 0
  else if String.prefix "http://" (lower (req_url r))
  then send_once P r
  else raise InvalidSchema.

(** Where a reply sends the session on: it is a redirect when it has one
    of the redirect statuses and a [Location]. *)
Definition redirect_target (resp : response * headers) : option string :=
  match location (snd resp) with
  | Some url =>
      if bool_decide (status_code (fst resp) ∈ redirect_stati)
         && negb (String.eqb url "")
      then Some url else None
  | None => None
  end.

(** A [GET] follows redirects, at most [hops] of them; the request that
    follows is for the new address as it stands, through the adapter for
    its scheme, with that adapter's retries afresh. *)
Fixpoint follow (L : platform) (P : wire) (s : Session) (r : request)
    (resp : response * headers) (hops : nat) : M response :=
  match redirect_target resp with
  | None => ret (fst resp)
  | Some url =>
      match hops with
      | O => raise TooManyRedirects
      | S hops' =>
          let r' := {| req_url := url; req_params := [];
                       req_timeout := req_timeout r |} in
          resp' <- adapter_send L P s r' ;;
          follow L P s r' resp' hops'
      end
  end.

(** [session.get(url, params=params, timeout=timeout)] before any
    provider. *)
Definition session_get_wire (L : platform) (P : wire) (session : option Session)
    (url : string) (params : list (string * string)) (timeout : Z) : M response :=
  match session with
  | None => raise AttributeError
  | Some s =>
      let r := {| req_url := url; req_params := params; req_timeout := timeout |} in
      resp <- adapter_send L P s r ;;
      follow L P s r resp max_redirects
  end.

(** The first thing, in the order of the text, the decoder gives up on,
    when [room] containers may still be entered: [ValueError] on an
    integer that is too long, [RecursionError] on a container too deep.
    Neither is a [JSONDecodeError]. *)
Fixpoint refusal (L : platform) (room : nat) (v : json) {struct v} : option exn :=
  match v with
  | JInt n =>
      if (0 <? max_str_digits L) && (10 ^ max_str_digits L <=? Z.abs n)
      then Some ValueError else None
  | JList l =>
      match room with
      | O => Some RecursionError
      | S room' =>
          (fix items (l : list json) : option exn :=
             match l with
             | [] => None
             | x :: l' =>
                 match refusal L room' x with
                 | Some e => Some e
                 | None => items l'
                 end
             end) l
      end
  | JDict d =>
      match room with
      | O => Some RecursionError
      | S room' =>
          (fix items (d : list (string * json)) : option exn :=
             match d with
             | [] => None
             | (_, x) :: d' =>
                 match refusal L room' x with
                 | Some e => Some e
                 | None => items d'
                 end
             end) d
      end
  | _ => None
  end.

(** [response.json()] under the limits of the interpreter. *)
Definition json_limited (L : platform) (r : response) : M json :=
  match body r with
  | Some v =>
      match refusal L (max_depth L) v with
      | Some e => raise e
      | None => ret v
      end
  | None => raise JSONDecodeError
  end.

(** Every body of the provider that is JSON is one the decoder reads. *)
Definition readable (L : platform) (P : wire) : Prop :=
  forall n r st v, fst (P n r) = Reply st (Some v) ->
                   refusal L (max_depth L) v = None.

(** The lookup before any provider: the body of the [try] and the
    function, line for line as [try_fetch] and [get_ip_geolocation_with],
    with the session and the decoder of this section. *)
Definition try_fetch_wire (L : platform) (P : wire) (session : option Session)
    (url : string) (params : list (string * string)) (key : string) : M json :=
  response <- session_get_wire L P session url params 5 ;;
  raise_for_status response ;;;
  geo_data <- json_limited L response ;;
  modify (fun w => set_cache (<[key := geo_data]> (geo_cache w)) w) ;;;
  ret geo_data.

Definition get_ip_geolocation_wire (L : platform) (api_key : string)
    (P : wire) (ip_address : option string) (session : option Session) : M json :=
  let url := build_url ip_address in
  let params := build_params api_key in
  let key := (url ++ str_params params)%string in
  w <- get_world ;;
  match geo_cache w !! key with
  | Some v => print [T "Using cached data..."] ;;; ret v
  | None =>
      try_except (try_fetch_wire L P session url params key) is_RequestException
        (fun e => print (fetch_notice e) ;;; ret JNull)
  end.

(** A computation raises only exceptions of [P]. *)
Definition raises_only (P : exn -> Prop) {A} (m : M A) : Prop :=
  forall w e w', m w = (Raise e, w') -> P e.

(** The two exceptions no handler of the script takes: the end of the
    input and a method that is missing on a value. *)
Definition escapes (e : exn) : Prop := e = EOFError \/ e = AttributeError.

(** What [last_geo_data] can hold between two rounds: [None] or a
    dictionary that is not empty. *)
Definition slot_ok (v : json) : Prop :=
  v = JNull \/ exists d, v = JDict d /\ d <> [].

(** A line [get_valid_input] takes: it reads as an integer that the
    options, if any, allow. *)
Definition acceptable `{Builtins} (valid_options : option (list Z)) (l : string) : bool :=
  match py_int (strip l) with
  | Some value => negb (rejected valid_options value)
  | None => false
  end.

Fixpoint count_commas (s : string) : nat :=
  match s with
  | EmptyString => 0
  | String c s' => ((if Ascii.eqb c ","%char then 1 else 0) + count_commas s')%nat
  end.

(** Nothing of the cache or of the network logs has changed. *)
Definition offline (w w' : world) : Prop :=
  geo_cache w' = geo_cache w /\ net w' = net w /\ sleeps w' = sleeps w.

(** The collaborator calls of [create_map], in the order of the source. *)
Definition map_calls (latitude longitude : spec_float) (zoom_level : Z)
    (marker_color : string) (popup : line) : list effect :=
  [ FoliumMap latitude longitude zoom_level;
    FoliumMarker latitude longitude popup marker_color;
    MapSave map_filename;
    BrowserOpen map_filename ].

(** The calls that are made of a sequence: up to the first that fails. *)
Fixpoint until_failure (E : env) (calls : list effect) : list effect :=
  match calls with
  | [] => []
  | c :: cs =>
      c :: match collab_error E c with
           | Some _ => []
           | None => until_failure E cs
           end
  end.

(** The message of the first call that fails. *)
Fixpoint first_failure (E : env) (calls : list effect) : option string :=
  match calls with
  | [] => None
  | c :: cs =>
      match collab_error E c with
      | Some msg => Some msg
      | None => first_failure E cs
      end
  end.

(** The popup [create_map] writes for the items [d] of a dictionary. *)
Definition popup_of (latitude longitude : spec_float)
    (d : list (string * json)) : line :=
  match d with
  | [] => [T "Location"]
  | _ =>
      [T "<b>Location Details</b><br>";
       T "IP: "; V (py_get d "ip" (JStr "N/A")); T "<br>";
       T "City: "; V (py_get d "city" (JStr "N/A")); T "<br>";
       T "Region: "; V (py_get d "region" (JStr "N/A")); T "<br>";
       T "Country: "; V (py_get d "country" (JStr "N/A")); T "<br>";
       T "Coordinates: "; F latitude; T ", "; F longitude]
  end.

Definition goodbye : line :=
  [T (nl ++ "Exiting IP Geolocation Tracker. Goodbye!")%string].

(** ** Running the definitions *)

(** Conversions for plain decimal numerals, to run the definitions on
    examples: an optional sign and digits for [int]; for [float] also a
    fraction, the quotient by the power of ten rounded to binary64. *)
Module Decimal.

Fixpoint digits (s : string) (acc : Z) : option Z :=
  match s with
  | EmptyString => Some acc
  | String c s' =>
      let n := Z.of_N (N_of_ascii c) in
      if (48 <=? n) && (n <=? 57) then digits s' (10 * acc + (n - 48)) else None
  end.

Definition unsigned (s : string) : option Z :=
  match s with
  | EmptyString => None
  | _ => digits s 0
  end.

Definition signed {A} (f : string -> option A) (neg : A -> A) (s : string) : option A :=
  match s with
  | String "-" s' => option_map neg (f s')
  | String "+" s' => f s'
  | _ => f s
  end.

Definition int_of (s : string) : option Z := signed unsigned Z.opp (strip s).

Fixpoint split_dot (s : string) : string * option string :=
  match s with
  | EmptyString => (EmptyString, None)
  | String c s' =>
      if Ascii.eqb c "."%char then (EmptyString, Some s')
      else let '(i, f) := split_dot s' in (String c i, f)
  end.

Definition b64 (m : Z) : spec_float := binary_normalize 53 1024 m 0 false.

Definition ufloat_of (s : string) : option spec_float :=
  match split_dot s with
  | (i, None) => option_map b64 (unsigned i)
  | (i, Some f) =>
      match unsigned i, unsigned f with
      | Some n, Some k =>
          let p := 10 ^ Z.of_nat (String.length f) in
          Some (SFdiv 53 1024 (b64 (n * p + k)) (b64 p))
      | _, _ => None
      end
  end.

Definition float_of (s : string) : option spec_float :=
  signed ufloat_of (SFopp) (strip s).

#[export] Instance builtins : Builtins :=
  {| py_int := int_of; py_float := float_of |}.

End Decimal.

Module Sample.
Import Decimal.

Definition fresh (lines : list string) : world :=
  {| geo_cache := ∅; stdin := lines; stdout := []; net := []; sleeps := [];
     effects := [] |}.

Definition mountain_view : json :=
  JDict [("ip", JStr "8.8.8.8"); ("city", JStr "Mountain View");
         ("loc", JStr "37.4,-122.08")].

Definition healthy : env := always (Reply 200 (Some mountain_view)).

(** Four failed attempts, then a healthy provider. *)
Definition recovering : env :=
  {| provider := fun n _ => if (n <? 4)%nat then Reply 503 None
                            else Reply 200 (Some mountain_view);
     collab_error := fun _ => None |}.

(** Every attempt refused with 404, with 503, with 501. *)
Definition not_found : env := always (Reply 404 None).
Definition unavailable : env := always (Reply 503 None).
Definition not_implemented : env := always (Reply 501 None).

(** A provider whose 200 carries the empty object. *)
Definition empty_object : env := always (Reply 200 (Some (JDict []))).

(** One 503, then 200 with the empty object. *)
Definition flaky : env :=
  {| provider := fun n _ => if (n <? 1)%nat then Reply 503 None
                            else Reply 200 (Some (JDict []));
     collab_error := fun _ => None |}.

Definition lat : spec_float := S754_finite false 5263582064489267 (-47).
Definition lon : spec_float := S754_finite true 8590616289209221 (-46).

End Sample.

Module Cases.
Import Decimal.

(** The map cannot be written: [save] fails, the rest works. *)
Definition read_only_disk : env :=
  {| provider := fun _ _ => Reply 200 (Some Sample.mountain_view);
     collab_error := fun c => match c with
                              | MapSave _ => Some "Permission denied"
                              | _ => None
                              end |}.

(** A provider whose 200 carries a list instead of an object. *)
Definition list_body : env := always (Reply 200 (Some (JList [JInt 1]))).

End Cases.

Module Faults.
Import Decimal.

(** The digit limit of a stock interpreter, room for 900 containers, and
    a library that reads a [Retry-After] given as a count of seconds. *)
Definition stock : platform :=
  {| max_str_digits := 4300; max_depth := 900;
     retry_after_seconds := fun t => unsigned (strip t) |}.

(** A 200 whose body is the integer 1 followed by 4300 zeros. *)
Definition long_integer : env := always (Reply 200 (Some (JInt (10 ^ 4300)))).

(** Every attempt sent on to the address it came to. *)
Definition circular : wire :=
  fun _ r => (Reply 302 None, {| location := Some (req_url r); retry_after := None |}).

(** Every attempt refused with 503, and asked to come back in 7 seconds. *)
Definition come_back_later : wire :=
  fun _ _ => (Reply 503 None, {| location := None; retry_after := Some "7" |}).

(** A 200 whose record has [null] for its location. *)
Definition null_loc : env :=
  always (Reply 200 (Some (JDict [("ip", JStr "8.8.8.8"); ("loc", JNull)]))).

End Faults.

(** * Properties *)

Create HintDb monad_ops.
#[local] Hint Unfold ret raise bind try_except get_world modify print : monad_ops.

Ltac run := autounfold with monad_ops in *; simpl in *.

Ltac pair_inv :=
  repeat match goal with
         | H : (_, _) = (_, _) |- _ => inversion H; clear H; subst
         end.

(** ** The session touches the network logs only *)

Lemma only_network_refl (w : world) : only_network w w.
Proof. by repeat split. Qed.

Lemma only_network_trans (a b c : world) :
  only_network a b -> only_network b c -> only_network a c.
Proof.
  intros (? & ? & ? & ?) (? & ? & ? & ?). repeat split; congruence.
Qed.

Lemma send_only_network (E : env) (p : Retry) (r : request) (left errors : nat)
    (w : world) (res : res response) (w' : world) :
  send E p r left errors w = (res, w') -> only_network w w'.
Proof.
  revert errors w. induction left as [| left IH]; intros errors w Hrun;
    simpl in Hrun; run.
  - destruct (provider E (length (net w)) r) as [st b | | |];
      [destruct (bool_decide (st ∈ status_forcelist p)) |..];
      pair_inv; by repeat split.
  - destruct (provider E (length (net w)) r) as [st b | | |];
      [destruct (bool_decide (st ∈ status_forcelist p)) |..];
      try (apply IH in Hrun; destruct Hrun as (? & ? & ? & ?);
           repeat split; simpl in *; congruence).
    pair_inv. by repeat split.
Qed.

(** ** What every operation leaves related *)

Section Frame.

Variable R : world -> world -> Prop.
Hypothesis R_refl : forall w, R w w.
Hypothesis R_trans : forall a b c, R a b -> R b c -> R a c.
Hypothesis R_stdout : forall l w, R w (add_stdout l w).
Hypothesis R_net : forall r w, R w (add_net r w).
Hypothesis R_sleep : forall d w, R w (add_sleep d w).
Hypothesis R_effect : forall e w, R w (add_effect e w).
Hypothesis R_stdin : forall l rest w, stdin w = l :: rest -> R w (set_stdin rest w).
Hypothesis R_cache : forall k v w,
  geo_cache w !! k = None -> R w (set_cache (<[k := v]> (geo_cache w)) w).

Lemma respects_ret {A} (a : A) : respects R (ret a).
Proof. intros w r w' Hrun. run. pair_inv. apply R_refl. Qed.

Lemma respects_raise {A} (e : exn) : respects R (@raise A e).
Proof. intros w r w' Hrun. run. pair_inv. apply R_refl. Qed.

Lemma respects_bind {A B} (m : M A) (k : A -> M B) :
  respects R m -> (forall a, respects R (k a)) -> respects R (bind m k).
Proof.
  intros Hm Hk w r w' Hrun. unfold bind in Hrun.
  destruct (m w) as [[a | e] w1] eqn:Em.
  - eapply R_trans; [eapply Hm, Em | eapply Hk, Hrun].
  - pair_inv. eapply Hm, Em.
Qed.

Lemma respects_try {A} (m : M A) (handles : exn -> bool) (h : exn -> M A) :
  respects R m -> (forall e, respects R (h e)) -> respects R (try_except m handles h).
Proof.
  intros Hm Hh w r w' Hrun. unfold try_except in Hrun.
  destruct (m w) as [[a | e] w1] eqn:Em.
  - pair_inv. eapply Hm, Em.
  - destruct (handles e).
    + eapply R_trans; [eapply Hm, Em | eapply Hh, Hrun].
    + pair_inv. eapply Hm, Em.
Qed.

Lemma respects_get_world : respects R get_world.
Proof. intros w r w' Hrun. run. pair_inv. apply R_refl. Qed.

Lemma respects_print (l : line) : respects R (print l).
Proof. intros w r w' Hrun. run. pair_inv. apply R_stdout. Qed.

Lemma respects_input (prompt : string) : respects R (input prompt).
Proof.
  intros w r w' Hrun. unfold input in Hrun. run.
  destruct (stdin w) as [| l rest] eqn:Ein; pair_inv.
  - apply R_stdout.
  - eapply R_trans; [apply R_stdout |]. by eapply R_stdin.
Qed.

Lemma respects_call (E : env) (c : effect) : respects R (call E c).
Proof.
  intros w r w' Hrun. unfold call in Hrun. run.
  destruct (collab_error E c); pair_inv; apply R_effect.
Qed.

Lemma respects_send (E : env) (p : Retry) (r : request) (left errors : nat) :
  respects R (send E p r left errors).
Proof.
  revert errors. induction left as [| left IH]; intros errors w res w' Hrun;
    simpl in Hrun; run.
  - destruct (provider E (length (net w)) r) as [st b | | |];
      [destruct (bool_decide (st ∈ status_forcelist p)) |..];
      pair_inv; apply R_net.
  - assert (Hstep : R w (add_sleep (get_backoff_time p (S errors)) (add_net r w)))
      by (eapply R_trans; [apply R_net | apply R_sleep]).
    destruct (provider E (length (net w)) r) as [st b | | |];
      [destruct (bool_decide (st ∈ status_forcelist p)) |..];
      try (eapply R_trans; [apply Hstep | eapply IH, Hrun]).
    pair_inv. apply R_net.
Qed.

Lemma respects_session_get (E : env) (session : option Session)
    (url : string) (params : list (string * string)) (timeout : Z) :
  respects R (session_get E session url params timeout).
Proof.
  unfold session_get. destruct session; [apply respects_send | apply respects_raise].
Qed.

Ltac frame_step :=
  match goal with
  | |- respects _ (bind _ _) => apply respects_bind; [| intros ?]
  | |- respects _ (ret _) => apply respects_ret
  | |- respects _ (raise _) => apply respects_raise
  | |- respects _ (print _) => apply respects_print
  | |- respects _ (input _) => apply respects_input
  | |- respects _ (call _ _) => apply respects_call
  | |- respects _ (try_except _ _ _) => apply respects_try; [| intros ?]
  | |- respects _ get_world => apply respects_get_world
  | |- respects _ (if ?b then _ else _) => destruct b
  | |- respects _ (match ?x with _ => _ end) => destruct x
  end.

Ltac frame := repeat frame_step.

(** The [try] of the lookup, started on a key the cache does not hold. *)
Lemma try_fetch_related (E : env) (session : option Session) (url : string)
    (params : list (string * string)) (key : string) (w : world)
    (r : res json) (w' : world) :
  geo_cache w !! key = None ->
  try_fetch E session url params key w = (r, w') -> R w w'.
Proof.
  intros Hmiss Hrun. unfold try_fetch in Hrun. unfold bind at 1 in Hrun.
  destruct (session_get E session url params 5 w) as [[resp | e] w1] eqn:Eget.
  - pose proof (respects_session_get _ _ _ _ _ _ _ _ Eget) as Hget.
    assert (Hcache : geo_cache w1 = geo_cache w).
    { unfold session_get in Eget. destruct session; [| run; by pair_inv].
      by destruct (send_only_network _ _ _ _ _ _ _ _ Eget). }
    unfold raise_for_status, response_json in Hrun. run.
    destruct ((400 <=? status_code resp) && (status_code resp <? 600));
      [by pair_inv |].
    destruct (body resp); pair_inv; [| done].
    eapply R_trans; [exact Hget |]. apply R_cache. by rewrite Hcache.
  - pair_inv. by apply (respects_session_get _ _ _ _ _ _ _ _ Eget).
Qed.

Lemma respects_get_ip_geolocation (api_key : string) (E : env)
    (ip_address : option string) (session : option Session) :
  respects R (get_ip_geolocation_with api_key E ip_address session).
Proof.
  intros w r w' Hrun. unfold get_ip_geolocation_with in Hrun.
  unfold bind at 1, get_world in Hrun.
  destruct (geo_cache w !! _) as [v |] eqn:Ehit.
  - run. pair_inv. apply R_stdout.
  - unfold try_except in Hrun.
    destruct (try_fetch _ _ _ _ _ w) as [[v | e] w1] eqn:Etry.
    + pair_inv. by eapply try_fetch_related.
    + pose proof (try_fetch_related _ _ _ _ _ _ _ _ Ehit Etry) as Hw1.
      destruct (is_RequestException e); run; pair_inv; [| done].
      eapply R_trans; [exact Hw1 | apply R_stdout].
Qed.

Lemma respects_display_details (geo_data : json) :
  respects R (display_details geo_data).
Proof. unfold display_details. frame. Qed.

Lemma respects_create_map (E : env) (latitude longitude : spec_float)
    (zoom_level : Z) (marker_color : string) (details : json) :
  respects R (create_map E latitude longitude zoom_level marker_color details).
Proof. unfold create_map, popup_text. frame. Qed.

Lemma respects_save_to_file (E : env) (geo_data : json) (filename : string) :
  respects R (save_to_file E geo_data filename).
Proof. unfold save_to_file. frame. Qed.

Context `{Builtins}.

Lemma get_valid_input_loop_related (prompt : string)
    (valid_options : option (list Z)) (lines : list string) (w : world)
    (r : res Z) (w' : world) :
  stdin w = lines ->
  get_valid_input_loop lines prompt valid_options w = (r, w') -> R w w'.
Proof.
  revert w. induction lines as [| l rest IH]; intros w Hin Hrun;
    simpl in Hrun; run.
  - pair_inv. apply R_stdout.
  - assert (Hread : R w (set_stdin rest (add_stdout [T prompt] w))).
    { eapply R_trans; [apply R_stdout | by apply (R_stdin l)]. }
    destruct (py_int (strip l)) as [value |];
      [destruct (rejected valid_options value) |].
    + eapply R_trans; [exact Hread |]. eapply R_trans; [apply R_stdout |].
      eapply IH; [| exact Hrun]. done.
    + by pair_inv.
    + eapply R_trans; [exact Hread |]. eapply R_trans; [apply R_stdout |].
      eapply IH; [| exact Hrun]. done.
Qed.

Lemma respects_get_valid_input (prompt : string) (valid_options : option (list Z)) :
  respects R (get_valid_input prompt valid_options).
Proof.
  intros w r w' Hrun. unfold get_valid_input in Hrun. run.
  by eapply get_valid_input_loop_related.
Qed.

Lemma respects_display_menu : respects R display_menu.
Proof. unfold display_menu. frame. apply respects_get_valid_input. Qed.

Lemma respects_locate (api_key : string) (E : env) (session : Session)
    (ip_address : option string) (last_geo_data : json) :
  respects R (locate api_key E session ip_address last_geo_data).
Proof.
  unfold locate. apply respects_bind; [apply respects_get_ip_geolocation |].
  intros geo_data. destruct (truthy geo_data); frame.
  apply respects_display_details.
Qed.

Lemma respects_render_map (E : env) (last_geo_data : json) :
  respects R (render_map E last_geo_data).
Proof.
  unfold render_map, render_map_try, loc_parts.
  destruct (negb (truthy last_geo_data)); [apply respects_print |].
  apply respects_try; [| intros; apply respects_print].
  apply respects_bind; [frame |]. intros loc.
  destruct loc as [| a [| b [| c loc]]]; try apply respects_print.
  destruct (py_float a); [| apply respects_raise].
  destruct (py_float b); [| apply respects_raise].
  apply respects_bind; [apply respects_get_valid_input |]. intros z.
  frame; apply respects_create_map.
Qed.

Lemma respects_dispatch (api_key : string) (E : env) (session : Session)
    (last_geo_data : json) (choice : Z) :
  respects R (dispatch api_key E session last_geo_data choice).
Proof.
  unfold dispatch.
  repeat match goal with
         | |- respects _ (if ?b then _ else _) => destruct b
         end;
    frame;
    first [ apply respects_locate | apply respects_display_details
          | apply respects_save_to_file | apply respects_render_map ].
Qed.

Lemma respects_main_body (api_key : string) (E : env) (session : Session)
    (last_geo_data : json) :
  respects R (main_body_with api_key E session last_geo_data).
Proof.
  unfold main_body_with.
  apply respects_bind; [apply respects_display_menu |]. intros choice.
  apply respects_dispatch.
Qed.

End Frame.

(** ** The cache only grows, the input only shrinks *)

Lemma cache_kept_insert (k : string) (v : json) (w : world) :
  geo_cache w !! k = None ->
  cache_kept w (set_cache (<[k := v]> (geo_cache w)) w).
Proof.
  intros Hmiss k' v' Hk'. simpl.
  destruct (decide (k = k')) as [<- | Hne]; [congruence |].
  by rewrite lookup_insert_ne.
Qed.

Ltac cache_kept_frame lem :=
  apply lem;
  solve [ by intros ? ? ?
        | by intros a b c Hab Hbc k v Hk; apply Hbc, Hab
        | by intros ? ? ? ? ?
        | by intros ? ? ? ? ? ? ?
        | by intros; apply cache_kept_insert ].

Lemma get_ip_geolocation_cache_kept (api_key : string) (E : env)
    (ip_address : option string) (session : option Session) :
  respects cache_kept (get_ip_geolocation_with api_key E ip_address session).
Proof. cache_kept_frame respects_get_ip_geolocation. Qed.

Lemma main_body_cache_kept `{Builtins} (api_key : string) (E : env)
    (session : Session) (last_geo_data : json) :
  respects cache_kept (main_body_with api_key E session last_geo_data).
Proof. cache_kept_frame respects_main_body. Qed.

Lemma later_cache_kept `{Builtins} (w w' : world) : later w w' -> cache_kept w w'.
Proof.
  induction 1 as [w | w w1 E ip session r w2 _ IH Hrun
                    | w w1 E session last r w2 _ IH Hrun].
  - by intros ? ? ?.
  - intros k v Hk. eapply get_ip_geolocation_cache_kept; [exact Hrun |]. auto.
  - intros k v Hk. eapply main_body_cache_kept; [exact Hrun |]. auto.
Qed.

Ltac stdin_frame lem :=
  apply lem; unfold stdin_consumed;
  solve [ by intros ?
        | by intros a b c ? ?; etrans
        | by intros ? ?
        | by intros l rest w Hin; simpl; rewrite Hin; simpl; lia
        | by intros ? ? ? ? ].

Lemma dispatch_stdin_consumed `{Builtins} (api_key : string) (E : env)
    (session : Session) (last_geo_data : json) (choice : Z) :
  respects stdin_consumed (dispatch api_key E session last_geo_data choice).
Proof. stdin_frame respects_dispatch. Qed.

(** A line that is accepted was read. *)
Lemma get_valid_input_loop_reads `{Builtins} (prompt : string)
    (valid_options : option (list Z)) (lines : list string) (w : world)
    (value : Z) (w' : world) :
  stdin w = lines ->
  get_valid_input_loop lines prompt valid_options w = (Ok value, w') ->
  (length (stdin w') < length (stdin w))%nat.
Proof.
  revert w. induction lines as [| l rest IH]; intros w Hin Hrun;
    simpl in Hrun; run; [done |].
  rewrite Hin. simpl.
  destruct (py_int (strip l)) as [v |];
    [destruct (rejected valid_options v) |].
  - apply IH in Hrun; [simpl in Hrun; lia | done].
  - pair_inv. simpl. lia.
  - apply IH in Hrun; [simpl in Hrun; lia | done].
Qed.

Lemma display_menu_reads `{Builtins} (w : world) (choice : Z) (w' : world) :
  display_menu w = (Ok choice, w') ->
  (length (stdin w') < length (stdin w))%nat.
Proof.
  intros Hrun. unfold display_menu, get_valid_input in Hrun. run.
  by apply get_valid_input_loop_reads in Hrun.
Qed.

(** The rounds given to the loop are enough: [main] never stops for want
    of rounds; it ends by choice 6 or by an exception. *)
Lemma main_loop_rounds_suffice `{Builtins} (rounds : nat) (api_key : string)
    (E : env) (session : Session) (last_geo_data : json) (w : world) :
  (length (stdin w) < rounds)%nat ->
  fst (main_loop rounds api_key E session last_geo_data w) <> Ok None.
Proof.
  revert last_geo_data w.
  induction rounds as [| rounds IH]; intros last w Hlen; [lia |].
  simpl. unfold bind at 1. unfold main_body_with. unfold bind at 1.
  destruct (display_menu w) as [[choice | e] wm] eqn:Emenu; [| done].
  apply display_menu_reads in Emenu.
  destruct (dispatch api_key E session last choice wm) as [[c | e] wd] eqn:Ed;
    [| done].
  apply dispatch_stdin_consumed in Ed. unfold stdin_consumed in Ed.
  destruct c as [last' |]; [| done].
  apply IH. lia.
Qed.

Lemma main_returns_or_raises `{Builtins} (api_key : string) (E : env) (w : world) :
  fst (main_with api_key E w) <> Ok None.
Proof.
  unfold main_with, bind, get_world. apply main_loop_rounds_suffice. lia.
Qed.

(** ** Lookups that hit and lookups that miss *)

Lemma cache_hit (api_key : string) (E : env) (ip_address : option string)
    (session : option Session) (w : world) (v : json) :
  geo_cache w !! cache_key_with api_key ip_address = Some v ->
  get_ip_geolocation_with api_key E ip_address session w =
    (Ok v, add_stdout [T "Using cached data..."] w).
Proof.
  intros Hhit. unfold get_ip_geolocation_with. run.
  unfold cache_key_with in Hhit. by rewrite Hhit.
Qed.

Lemma cache_miss (api_key : string) (E : env) (ip_address : option string)
    (session : option Session) (w : world) :
  geo_cache w !! cache_key_with api_key ip_address = None ->
  get_ip_geolocation_with api_key E ip_address session w =
    try_except
      (try_fetch E session (build_url ip_address) (build_params api_key)
         (cache_key_with api_key ip_address))
      is_RequestException
      (fun e => print (fetch_notice e) ;;; ret JNull) w.
Proof.
  intros Hmiss. unfold get_ip_geolocation_with. unfold bind at 1, get_world.
  unfold cache_key_with in Hmiss. by rewrite Hmiss.
Qed.

(** The session makes at least one attempt and at most one more than the
    retries it has left; what it raises is below [RequestException]. *)
Lemma send_outcome (E : env) (p : Retry) (r : request) (left errors : nat)
    (w : world) (res : res response) (w' : world) :
  send E p r left errors w = (res, w') ->
  match res with
  | Ok _ => True
  | Raise e => is_RequestException e = true
  end /\
  exists k, (k <= left)%nat /\ net w' = net w ++ replicate (S k) r.
Proof.
  revert errors w. induction left as [| left IH]; intros errors w Hrun;
    simpl in Hrun; run.
  - destruct (provider E (length (net w)) r) as [st b | | |];
      [destruct (bool_decide (st ∈ status_forcelist p)) |..];
      pair_inv; (split; [done | by exists 0%nat]).
  - destruct (provider E (length (net w)) r) as [st b | | |];
      [destruct (bool_decide (st ∈ status_forcelist p)) |..];
      try (apply IH in Hrun; destruct Hrun as [Hres (k & Hk & Hnet)];
           split; [exact Hres |]; exists (S k); split; [lia |];
           rewrite Hnet; simpl; by rewrite <- app_assoc).
    pair_inv. split; [done |]. exists 0%nat. split; [lia | done].
Qed.

(** What the [try] of the lookup can end in: the value it stored, or an
    exception of the session or of the decoding, the cache untouched. *)
Lemma try_fetch_outcome (E : env) (s : Session) (url : string)
    (params : list (string * string)) (key : string) (w : world)
    (r : res json) (w' : world) :
  try_fetch E (Some s) url params key w = (r, w') ->
  match r with
  | Ok v => geo_cache w' = <[key := v]> (geo_cache w)
  | Raise e => is_RequestException e = true /\ geo_cache w' = geo_cache w
  end /\
  stdin w' = stdin w /\ stdout w' = stdout w /\ effects w' = effects w /\
  exists k, (k <= total (max_retries s))%nat /\ net w' = net w ++
    replicate (S k) {| req_url := url; req_params := params; req_timeout := 5 |}.
Proof.
  intros Hrun. unfold try_fetch, session_get in Hrun. unfold bind at 1 in Hrun.
  destruct (send _ _ _ _ _ w) as [[resp | e] w1] eqn:Esend.
  - destruct (send_only_network _ _ _ _ _ _ _ _ Esend) as (Hc & Hi & Ho & He).
    destruct (send_outcome _ _ _ _ _ _ _ _ Esend) as [_ Hnet].
    unfold raise_for_status, response_json in Hrun. run.
    destruct ((400 <=? status_code resp) && (status_code resp <? 600));
      [pair_inv; by repeat split |].
    destruct (body resp); pair_inv; simpl; repeat split; try done.
    by rewrite Hc.
  - pair_inv.
    destruct (send_only_network _ _ _ _ _ _ _ _ Esend) as (Hc & Hi & Ho & He).
    destruct (send_outcome _ _ _ _ _ _ _ _ Esend) as [Hres Hnet].
    by repeat split.
Qed.

(** Before a provider of plain replies whose bodies the decoder reads, a
    lookup given a session returns. *)
Lemma get_ip_geolocation_returns (api_key : string) (E : env)
    (ip_address : option string) (s : Session) (w : world) :
  exists v w', get_ip_geolocation_with api_key E ip_address (Some s) w = (Ok v, w').
Proof.
  destruct (geo_cache w !! cache_key_with api_key ip_address) as [v |] eqn:Ek.
  - rewrite (cache_hit _ _ _ _ _ _ Ek). eauto.
  - rewrite (cache_miss _ _ _ _ _ Ek). unfold try_except.
    destruct (try_fetch _ _ _ _ _ w) as [[v | e] w1] eqn:Etry; [eauto |].
    destruct (try_fetch_outcome _ _ _ _ _ _ _ _ Etry) as [[-> _] _].
    run. eauto.
Qed.


(** A 2xx reply with a JSON body, met by the script's session on a key
    that is not cached: one attempt, the value stored and returned. *)
Lemma lookup_2xx (E : env) (ip : option string) (w : world) (st : Z) (v : json) :
  geo_cache w !! cache_key ip = None ->
  provider E (length (net w)) (request_for API_KEY ip) = Reply st (Some v) ->
  200 <= st < 300 ->
  get_ip_geolocation E ip (Some setup_session) w =
    (Ok v, set_cache (<[cache_key ip := v]> (geo_cache w))
             (add_net (request_for API_KEY ip) w)).
Proof.
  intros Hmiss Hreply Hst.
  unfold get_ip_geolocation. rewrite (cache_miss _ _ _ _ _ Hmiss).
  unfold try_except, try_fetch, session_get, raise_for_status, response_json.
  simpl. run. unfold request_for in Hreply. rewrite Hreply.
  rewrite bool_decide_eq_false_2.
  2: { intros Hin. repeat (apply elem_of_cons in Hin as [-> | Hin]; [lia |]).
       by apply elem_of_nil in Hin. }
  simpl. replace (400 <=? st) with false by (symmetry; apply Z.leb_gt; lia).
  reflexivity.
Qed.

(** When every attempt meets a condition the policy retries, the session
    uses all its retries: one attempt more than [left], a pause after each
    but the last, and then the exception of the last attempt. *)
Lemma send_exhausts (E : env) (p : Retry) (r : request) :
  (forall n, retryable p (provider E n r) = true) ->
  forall (left errors : nat) (w : world),
  exists w',
    send E p r left errors w =
      (Raise (exhausted (provider E (length (net w) + left) r)), w') /\
    net w' = net w ++ replicate (S left) r /\
    sleeps w' = sleeps w ++ map (get_backoff_time p) (seq (S errors) left) /\
    only_network w w'.
Proof.
  intros Hretry. induction left as [| left IH]; intros errors w; simpl; run.
  - rewrite Nat.add_0_r. specialize (Hretry (length (net w))).
    destruct (provider E (length (net w)) r) as [st b | | |]; simpl in *;
      [rewrite Hretry |..];
      (eexists; split; [reflexivity |]; simpl; rewrite app_nil_r;
       repeat split; done).
  - pose proof (Hretry (length (net w))) as Hnow.
    destruct (IH (S errors)
                (add_sleep (get_backoff_time p (S errors)) (add_net r w)))
      as (w' & Hrun & Hnet & Hsleep & Hc & Hi & Ho & He).
    simpl in Hrun, Hnet, Hsleep, Hc, Hi, Ho, He.
    rewrite length_app in Hrun. simpl in Hrun.
    replace (length (net w) + 1 + left)%nat
      with (length (net w) + S left)%nat in Hrun by lia.
    destruct (provider E (length (net w)) r) as [st b | | |]; simpl in *;
      [rewrite Hnow |..];
      (exists w'; split; [exact Hrun |];
       rewrite Hnet, Hsleep, <- !app_assoc; by repeat split).
Qed.

(** ** The session before any provider *)

Lemma refusal_cases (L : platform) :
  forall (v : json) (room : nat) (e : exn),
  refusal L room v = Some e -> e = ValueError \/ e = RecursionError.
Proof.
  fix IH 1. intros [| b | n | f | s | l | d] room e; simpl; try discriminate.
  - destruct (_ && _); [intros [= <-]; by left | discriminate].
  - destruct room as [| room']; [intros [= <-]; by right |].
    induction l as [| x l IHl]; [discriminate |].
    destruct (refusal L room' x) as [e' |] eqn:Ex; [| exact IHl].
    intros [= <-]. exact (IH x room' e' Ex).
  - destruct room as [| room']; [intros [= <-]; by right |].
    induction d as [| [k x] d IHd]; [discriminate |].
    destruct (refusal L room' x) as [e' |] eqn:Ex; [| exact IHd].
    intros [= <-]. exact (IH x room' e' Ex).
Qed.

Lemma refusal_not_request (L : platform) (v : json) (room : nat) (e : exn) :
  refusal L room v = Some e -> is_RequestException e = false.
Proof. intros Hr. by destruct (refusal_cases _ _ _ _ Hr) as [-> | ->]. Qed.

Lemma send_wire_outcome (L : platform) (P : wire) (p : Retry) (r : request)
    (left errors : nat) (w : world) (res : res (response * headers)) (w' : world) :
  send_wire L P p r left errors w = (res, w') ->
  only_network w w' /\
  match res with
  | Ok _ => True
  | Raise e => is_RequestException e = true
  end.
Proof.
  revert errors w. induction left as [| left IH]; intros errors w Hrun;
    simpl in Hrun; run.
  - destruct (P (length (net w)) r) as [[st b | | |] h];
      [destruct (is_retry p 0 st h) |..];
      pair_inv; by repeat split.
  - destruct (P (length (net w)) r) as [[st b | | |] h];
      [destruct (is_retry p (S left) st h);
       [destruct (retry_after h) as [t |];
        [destruct (retry_after_seconds L t) as [seconds |] |] |] |..];
      try (apply IH in Hrun; destruct Hrun as [(? & ? & ? & ?) Hres];
           split; [repeat split; simpl in *; congruence | exact Hres]);
      pair_inv; by repeat split.
Qed.

Lemma adapter_send_outcome (L : platform) (P : wire) (s : Session) (r : request)
    (w : world) (res : res (response * headers)) (w' : world) :
  adapter_send L P s r w = (res, w') ->
  only_network w w' /\
  match res with
  | Ok _ => True
  | Raise e => is_RequestException e = true
  end.
Proof.
  unfold adapter_send.
  destruct (String.prefix "https://" _); [apply send_wire_outcome |].
  destruct (String.prefix "http://" _).
  - unfold send_once. run.
    destruct (P (length (net w)) r) as [[st b | | |] h]; intros; pair_inv;
      by repeat split.
  - run. intros. pair_inv. by repeat split.
Qed.

Lemma follow_outcome (L : platform) (P : wire) (s : Session) (hops : nat) :
  forall (r : request) (resp : response * headers) (w : world)
         (res : res response) (w' : world),
  follow L P s r resp hops w = (res, w') ->
  only_network w w' /\
  match res with
  | Ok _ => True
  | Raise e => is_RequestException e = true
  end.
Proof.
  induction hops as [| hops IH]; intros r resp w res w' Hrun; simpl in Hrun;
    destruct (redirect_target resp) as [url |]; run; try (pair_inv; by repeat split).
  destruct (adapter_send L P s _ w) as [[resp' | e] w1] eqn:Esend;
    apply adapter_send_outcome in Esend as [Hnet Hres].
  - apply IH in Hrun as [Hnet' Hres']. split; [| exact Hres'].
    by apply (only_network_trans _ _ _ Hnet).
  - by pair_inv.
Qed.

Lemma session_get_wire_outcome (L : platform) (P : wire) (s : Session)
    (url : string) (params : list (string * string)) (timeout : Z)
    (w : world) (res : res response) (w' : world) :
  session_get_wire L P (Some s) url params timeout w = (res, w') ->
  only_network w w' /\
  match res with
  | Ok _ => True
  | Raise e => is_RequestException e = true
  end.
Proof.
  unfold session_get_wire. unfold bind at 1. intros Hrun.
  destruct (adapter_send L P s _ w) as [[resp | e] w1] eqn:Esend;
    apply adapter_send_outcome in Esend as [Hnet Hres].
  - apply follow_outcome in Hrun as [Hnet' Hres']. split; [| exact Hres'].
    by apply (only_network_trans _ _ _ Hnet).
  - by pair_inv.
Qed.

(** What the [try] of the lookup can end in: the value it stored; an
    exception below [RequestException]; or what the decoder raises on a
    body that is JSON. *)
Lemma try_fetch_wire_outcome (L : platform) (P : wire) (s : Session) (url : string)
    (params : list (string * string)) (key : string) (w : world)
    (r : res json) (w' : world) :
  try_fetch_wire L P (Some s) url params key w = (r, w') ->
  stdin w' = stdin w /\ stdout w' = stdout w /\ effects w' = effects w /\
  match r with
  | Ok v => geo_cache w' = <[key := v]> (geo_cache w)
  | Raise e =>
      geo_cache w' = geo_cache w /\
      (is_RequestException e = true \/
       exists resp v,
         session_get_wire L P (Some s) url params 5 w = (Ok resp, w') /\
         ~ 400 <= status_code resp < 600 /\
         body resp = Some v /\ refusal L (max_depth L) v = Some e)
  end.
Proof.
  intros Hrun. unfold try_fetch_wire in Hrun. unfold bind at 1 in Hrun.
  destruct (session_get_wire _ _ _ _ _ _ w) as [[resp | e] w1] eqn:Eget;
    destruct (session_get_wire_outcome _ _ _ _ _ _ _ _ _ Eget)
      as [(Hc & Hi & Ho & He) Hres].
  - unfold raise_for_status, json_limited in Hrun. run.
    destruct ((400 <=? status_code resp) && (status_code resp <? 600)) eqn:Est;
      [pair_inv; repeat split; try done; by left |].
    destruct (body resp) as [v |] eqn:Ebody;
      [| pair_inv; repeat split; try done; by left].
    destruct (refusal L (max_depth L) v) as [e |] eqn:Eref; pair_inv; simpl.
    + repeat split; try done. right. exists resp, v. repeat split; try done. lia.
    + repeat split; try done. by rewrite Hc.
  - pair_inv. repeat split; try done. by left.
Qed.

Lemma cache_hit_wire (L : platform) (api_key : string) (P : wire)
    (ip_address : option string) (session : option Session) (w : world) (v : json) :
  geo_cache w !! cache_key_with api_key ip_address = Some v ->
  get_ip_geolocation_wire L api_key P ip_address session w =
    (Ok v, add_stdout [T "Using cached data..."] w).
Proof.
  intros Hhit. unfold get_ip_geolocation_wire. run.
  unfold cache_key_with in Hhit. by rewrite Hhit.
Qed.

Lemma cache_miss_wire (L : platform) (api_key : string) (P : wire)
    (ip_address : option string) (session : option Session) (w : world) :
  geo_cache w !! cache_key_with api_key ip_address = None ->
  get_ip_geolocation_wire L api_key P ip_address session w =
    try_except
      (try_fetch_wire L P session (build_url ip_address) (build_params api_key)
         (cache_key_with api_key ip_address))
      is_RequestException
      (fun e => print (fetch_notice e) ;;; ret JNull) w.
Proof.
  intros Hmiss. unfold get_ip_geolocation_wire. unfold bind at 1, get_world.
  unfold cache_key_with in Hmiss. by rewrite Hmiss.
Qed.

(** Before a provider of plain replies the session is [send]. *)
Lemma send_wire_plain (L : platform) (P : wire) (p : Retry) (r : request) :
  plain P ->
  forall (left errors : nat) (w : world),
  send_wire L P p r left errors w =
    match send (replies_of P) p r left errors w with
    | (Ok resp, w') => (Ok (resp, no_headers), w')
    | (Raise e, w') => (Raise e, w')
    end.
Proof.
  intros Hplain. induction left as [| left IH]; intros errors w; simpl; run.
  - pose proof (Hplain (length (net w)) r) as Hh.
    destruct (P (length (net w)) r) as [[st b | | |] h]; simpl in *; subst;
      try done.
    unfold is_retry. simpl. rewrite orb_false_r.
    by destruct (bool_decide (st ∈ status_forcelist p)).
  - pose proof (Hplain (length (net w)) r) as Hh.
    destruct (P (length (net w)) r) as [[st b | | |] h]; simpl in *; subst;
      try apply IH.
    unfold is_retry. simpl. rewrite orb_false_r.
    destruct (bool_decide (st ∈ status_forcelist p)); [apply IH | done].
Qed.

Lemma build_url_https (ip : option string) :
  String.prefix "https://" (lower (build_url ip)) = true.
Proof.
  destruct ip as [a |]; [| reflexivity]. unfold build_url.
  destruct (String.eqb a ""); reflexivity.
Qed.

Lemma session_get_wire_plain (L : platform) (P : wire) (s : Session)
    (ip : option string) (params : list (string * string)) (timeout : Z)
    (w : world) :
  plain P ->
  session_get_wire L P (Some s) (build_url ip) params timeout w =
    session_get (replies_of P) (Some s) (build_url ip) params timeout w.
Proof.
  intros Hplain. unfold session_get_wire, session_get, adapter_send.
  cbv zeta. unfold bind at 1. cbn [req_url]. rewrite build_url_https.
  rewrite (send_wire_plain _ _ _ _ Hplain).
  by destruct (send _ _ _ _ _ w) as [[resp | e] w1].
Qed.

(** ** The cache *)

(** C1.  A key is fetched at most once.  When a lookup went to the provider
    (its key was not cached) and succeeded with value [v], then in every
    later world of the process, after any further lookups and menu rounds,
    a lookup whose key is the same returns [v] itself, whatever the
    provider and the session are, and changes nothing but the printed
    text; in particular it makes no outbound attempt. *)
Theorem fetched_at_most_once `{Builtins} (E : env) (s : Session)
    (ip : option string) (w : world) (v : json) (w1 : world) :
  geo_cache w !! cache_key ip = None ->
  try_fetch E (Some s) (build_url ip) (build_params API_KEY) (cache_key ip) w
    = (Ok v, w1) ->
  get_ip_geolocation E ip (Some s) w = (Ok v, w1) /\
  forall w2, later w1 w2 ->
  forall E' ip' session', cache_key ip' = cache_key ip ->
    get_ip_geolocation E' ip' session' w2
      = (Ok v, add_stdout [T "Using cached data..."] w2) /\
    net (snd (get_ip_geolocation E' ip' session' w2)) = net w2.
Proof.
  intros Hmiss Htry. split.
  - unfold get_ip_geolocation. rewrite (cache_miss _ _ _ _ _ Hmiss).
    unfold try_except. fold (cache_key ip). by rewrite Htry.
  - intros w2 Hlater E' ip' session' Hkey.
    destruct (try_fetch_outcome _ _ _ _ _ _ _ _ Htry) as [Hstored _].
    assert (Hhit : geo_cache w2 !! cache_key_with API_KEY ip' = Some v).
    { fold (cache_key ip'). rewrite Hkey.
      apply (later_cache_kept _ _ Hlater). rewrite Hstored.
      apply lookup_insert_eq. }
    unfold get_ip_geolocation. by rewrite (cache_hit _ _ _ _ _ _ Hhit).
Qed.

(** C3.  Failures are not cached.  When a lookup went to the provider and
    its [try] raised, the lookup returns [None], the cache is exactly what
    it was, and the next lookup of the same address, with any session and
    any provider, goes out again; if the provider then answers 2xx with a
    JSON body, that one attempt gives the record. *)
Theorem failure_not_cached (E : env) (s : Session) (ip : option string)
    (w : world) (e : exn) (w1 : world) :
  geo_cache w !! cache_key ip = None ->
  try_fetch E (Some s) (build_url ip) (build_params API_KEY) (cache_key ip) w
    = (Raise e, w1) ->
  let w' := add_stdout (fetch_notice e) w1 in
  get_ip_geolocation E ip (Some s) w = (Ok JNull, w') /\
  geo_cache w' = geo_cache w /\
  (forall E' s', exists k,
     net (snd (get_ip_geolocation E' ip (Some s') w'))
       = net w' ++ replicate (S k) (request_for API_KEY ip)) /\
  (forall E' st v,
     provider E' (length (net w')) (request_for API_KEY ip) = Reply st (Some v) ->
     200 <= st < 300 ->
     fst (get_ip_geolocation E' ip (Some setup_session) w') = Ok v /\
     net (snd (get_ip_geolocation E' ip (Some setup_session) w'))
       = net w' ++ [request_for API_KEY ip]).
Proof.
  intros Hmiss Htry w'.
  destruct (try_fetch_outcome _ _ _ _ _ _ _ _ Htry) as [[Hexn Hcache] _].
  assert (Hmiss' : geo_cache w' !! cache_key ip = None)
    by (subst w'; simpl; by rewrite Hcache).
  split; [| split; [| split; [| intros E' st v Hreply Hst; split]]].
  - unfold get_ip_geolocation. rewrite (cache_miss _ _ _ _ _ Hmiss).
    unfold try_except. fold (cache_key ip). rewrite Htry, Hexn. by run.
  - exact Hcache.
  - intros E' s'. unfold get_ip_geolocation.
    rewrite (cache_miss _ _ _ _ _ Hmiss'). unfold try_except.
    destruct (try_fetch _ _ _ _ _ w') as [[v | e'] w2] eqn:Etry'.
    + destruct (try_fetch_outcome _ _ _ _ _ _ _ _ Etry')
        as (_ & _ & _ & _ & k & _ & Hnet). by exists k.
    + destruct (try_fetch_outcome _ _ _ _ _ _ _ _ Etry')
        as ([-> _] & _ & _ & _ & k & _ & Hnet). run. by exists k.
  - by rewrite (lookup_2xx _ _ _ _ _ Hmiss' Hreply Hst).
  - by rewrite (lookup_2xx _ _ _ _ _ Hmiss' Hreply Hst).
Qed.

(** What C9 has right.  On a key that is not cached, whenever the session
    hands back a 2xx response whose body is JSON that the decoder reads
    within its limits, whatever value [v] it parses to and whatever fields
    it has or lacks, the lookup stores [v] under the key and returns it,
    with no notice. *)
Lemma json_body_is_success (L : platform) (P : wire) (s : Session)
    (ip : option string) (w : world) (st : Z) (v : json) (w1 : world) :
  geo_cache w !! cache_key ip = None ->
  session_get_wire L P (Some s) (build_url ip) (build_params API_KEY) 5 w
    = (Ok {| status_code := st; body := Some v |}, w1) ->
  200 <= st < 300 ->
  refusal L (max_depth L) v = None ->
  get_ip_geolocation_wire L API_KEY P ip (Some s) w =
    (Ok v, set_cache (<[cache_key ip := v]> (geo_cache w1)) w1) /\
  geo_cache w1 = geo_cache w /\ stdout w1 = stdout w.
Proof.
  intros Hmiss Hget Hst Href. split.
  - rewrite (cache_miss_wire _ _ _ _ _ _ Hmiss).
    unfold try_except, try_fetch_wire. unfold bind at 1. rewrite Hget.
    unfold raise_for_status, json_limited. simpl.
    replace (400 <=? st) with false by (symmetry; apply Z.leb_gt; lia).
    simpl. rewrite Href. reflexivity.
  - by destruct (session_get_wire_outcome _ _ _ _ _ _ _ _ _ Hget)
      as [(? & _ & ? & _) _].
Qed.

(** C9.  A 2xx body that is JSON is not always a success.  The provider
    answers 200 with the integer 1 followed by 4300 zeros, which is JSON.
    The interpreter converts no integer of more than 4300 digits, so
    [response.json()] raises a [ValueError]; that is no
    [RequestException], none of the three [except] clauses takes it, and
    the lookup raises instead of returning: one attempt was made, nothing
    is cached, nothing is printed.  Choice 1 of the menu ends with that
    exception, and the program with it. *)
Theorem oversized_integer_is_not_success :
  let lookup := get_ip_geolocation_wire Faults.stock API_KEY
                  (plainly Faults.long_integer) in
  let run := lookup None (Some setup_session) (Sample.fresh []) in
  fst run = Raise ValueError /\
  geo_cache (snd run) !! cache_key None = None /\
  stdout (snd run) = [] /\
  net (snd run) = [request_for API_KEY None] /\
  fst (main_body_by (H := Decimal.builtins) lookup Faults.long_integer
         setup_session JNull (Sample.fresh ["1"])) = Raise ValueError.
Proof. vm_compute. repeat split. Qed.

(** ** Retries *)

Lemma send_reply (E : env) (p : Retry) (r : request) (left errors : nat)
    (w : world) (resp : response) (w' : world) :
  send E p r left errors w = (Ok resp, w') ->
  exists n, provider E n r = Reply (status_code resp) (body resp).
Proof.
  revert errors w. induction left as [| left IH]; intros errors w Hrun;
    simpl in Hrun; run;
    destruct (provider E (length (net w)) r) as [st b | | |] eqn:Ereply;
    try destruct (bool_decide (st ∈ status_forcelist p));
    try done; try (by eapply IH); pair_inv; by exists (length (net w)).
Qed.

(** The two readings of the lookup agree before a provider of plain
    replies whose bodies the decoder reads. *)
Lemma get_ip_geolocation_wire_plain (L : platform) (api_key : string) (P : wire)
    (ip : option string) (s : Session) (w : world) :
  plain P -> readable L P ->
  get_ip_geolocation_wire L api_key P ip (Some s) w
    = get_ip_geolocation_with api_key (replies_of P) ip (Some s) w.
Proof.
  intros Hplain Hread.
  destruct (geo_cache w !! cache_key_with api_key ip) as [v |] eqn:Ekey.
  { by rewrite (cache_hit_wire _ _ _ _ _ _ _ Ekey), (cache_hit _ _ _ _ _ _ Ekey). }
  rewrite (cache_miss_wire _ _ _ _ _ _ Ekey), (cache_miss _ _ _ _ _ Ekey).
  unfold try_except, try_fetch_wire, try_fetch.
  unfold bind at 1. unfold bind at 5.
  rewrite (session_get_wire_plain _ _ _ _ _ _ _ Hplain). unfold session_get.
  destruct (send _ _ _ _ _ w) as [[resp | e] w1] eqn:Esend; [| done].
  destruct (send_reply _ _ _ _ _ _ _ _ Esend) as [n Hn].
  unfold raise_for_status, json_limited, response_json. run.
  destruct ((400 <=? status_code resp) && (status_code resp <? 600)); [done |].
  destruct (body resp) as [v |] eqn:Ebody; [| done].
  by rewrite (Hread _ _ _ _ Hn).
Qed.

Lemma try_fetch_wire_attempts (L : platform) (P : wire) (s : Session)
    (ip : option string) (params : list (string * string)) (key : string)
    (w : world) (r : res json) (w' : world) :
  plain P ->
  try_fetch_wire L P (Some s) (build_url ip) params key w = (r, w') ->
  exists k, (k <= total (max_retries s))%nat /\
    net w' = net w ++
      replicate (S k) {| req_url := build_url ip; req_params := params;
                         req_timeout := 5 |}.
Proof.
  intros Hplain Hrun. unfold try_fetch_wire in Hrun. unfold bind at 1 in Hrun.
  rewrite (session_get_wire_plain _ _ _ _ _ _ _ Hplain) in Hrun.
  unfold session_get in Hrun.
  destruct (send _ _ _ _ _ w) as [[resp | e] w1] eqn:Esend;
    destruct (send_outcome _ _ _ _ _ _ _ _ Esend) as [_ (k & Hk & Hnet)];
    exists k; (split; [exact Hk |]); [| by pair_inv].
  unfold raise_for_status, json_limited in Hrun. run.
  destruct ((400 <=? status_code resp) && (status_code resp <? 600));
    [by pair_inv |].
  destruct (body resp) as [v |]; [| by pair_inv].
  destruct (refusal L (max_depth L) v); by pair_inv.
Qed.

(** Why the replies have to be plain for what follows.  A provider that
    sends every attempt on to the address it came to is followed thirty
    times, thirty-one attempts in all; one whose 503 asks the client to
    come back in 7 seconds sets the three pauses itself. *)
Lemma headers_set_attempts_and_pauses :
  let lookup P := get_ip_geolocation_wire Faults.stock API_KEY P None
                    (Some setup_session) (Sample.fresh []) in
  (fst (lookup Faults.circular) = Ok JNull /\
   length (net (snd (lookup Faults.circular))) = 31%nat /\
   stdout (snd (lookup Faults.circular))
     = [ [T "Request error: "; X TooManyRedirects] ]) /\
  (fst (lookup Faults.come_back_later) = Ok JNull /\
   length (net (snd (lookup Faults.come_back_later))) = 4%nat /\
   sleeps (snd (lookup Faults.come_back_later)) = [7; 7; 7]).
Proof. vm_compute. repeat split. Qed.

(** C2, as the code has it.  Before a provider whose replies carry neither
    a [Location] nor a [Retry-After] header, a lookup on a key that is not
    cached makes at least one and at most four outbound attempts.  The
    policy retries the statuses 429, 500, 502, 503 and 504, a connection
    or a reply that is not there within the timeout, and a failed
    connection.  When every attempt meets one of these, the lookup
    makes the first attempt and the three retries, four attempts in all,
    pausing 0, 2 and 4 seconds between them; then it prints one notice and
    returns [None], the cache as it was. *)
Theorem retries_exhausted (L : platform) (P : wire) (ip : option string)
    (w : world) :
  geo_cache w !! cache_key ip = None ->
  plain P ->
  (exists k, (k <= 3)%nat /\
     net (snd (get_ip_geolocation_wire L API_KEY P ip (Some setup_session) w))
       = net w ++ replicate (S k) (request_for API_KEY ip)) /\
  ((forall n r, retryable (max_retries setup_session) (fst (P n r)) = true) ->
   exists e w',
     get_ip_geolocation_wire L API_KEY P ip (Some setup_session) w = (Ok JNull, w') /\
     net w' = net w ++ replicate 4 (request_for API_KEY ip) /\
     sleeps w' = sleeps w ++ [0; 2; 4] /\
     stdout w' = stdout w ++ [fetch_notice e] /\
     geo_cache w' = geo_cache w).
Proof.
  intros Hmiss Hplain. rewrite (cache_miss_wire _ _ _ _ _ _ Hmiss). split.
  - unfold try_except.
    destruct (try_fetch_wire _ _ _ _ _ _ w) as [[v | e] w1] eqn:Etry;
      destruct (try_fetch_wire_attempts _ _ _ _ _ _ _ _ _ Hplain Etry)
        as (k & Hk & Hnet); exists k; (split; [exact Hk |]); [exact Hnet |].
    destruct (is_RequestException e); [run |]; exact Hnet.
  - intros Hretry.
    destruct (send_exhausts (replies_of P) (max_retries setup_session)
                (request_for API_KEY ip) (fun n => Hretry n _) 3 0 w)
      as (w1 & Hsend & Hnet & Hsleep & Hc & Hi & Ho & He).
    set (e := exhausted (provider (replies_of P) (length (net w) + 3)
                           (request_for API_KEY ip))) in *.
    exists e, (add_stdout (fetch_notice e) w1).
    assert (Hexn : is_RequestException e = true)
      by (subst e; by destruct (provider _ _ _)).
    split.
    + unfold try_except, try_fetch_wire. unfold bind at 1.
      rewrite (session_get_wire_plain _ _ _ _ _ _ _ Hplain).
      unfold session_get.
      change (total (max_retries setup_session)) with 3%nat.
      unfold request_for in Hsend. rewrite Hsend, Hexn. by run.
    + simpl. rewrite Ho. by repeat split.
Qed.

(** ** Failures *)

(** C4, as the specification words it, does not hold: the caller cannot
    read the kind of a failure off the value the lookup returns.  A failed
    connection and a 404 both come back as [None]. *)
Lemma failure_value_is_untyped :
  ~ exists decode : json -> option GeoError,
      forall a ge, spec_error a = Some ge ->
      forall v w', get_ip_geolocation (always a) None (Some setup_session)
                     (Sample.fresh []) = (Ok v, w') ->
                   decode v = Some ge.
Proof.
  intros [decode Hdecode].
  pose proof (Hdecode ConnectFailed TransportError eq_refl JNull
                (snd (get_ip_geolocation (always ConnectFailed) None
                        (Some setup_session) (Sample.fresh []))) eq_refl) as H1.
  pose proof (Hdecode (Reply 404 None) (HttpError 404) eq_refl JNull
                (snd (get_ip_geolocation (always (Reply 404 None)) None
                        (Some setup_session) (Sample.fresh []))) eq_refl) as H2.
  congruence.
Qed.

(** C4, as the code has it.  When the [try] of a lookup raises, whatever
    the provider did, the cache is as it was.  When the exception is below
    [RequestException], the lookup prints one notice, of the first of the
    three [except] clauses that takes it, and returns [None]; choices 1
    and 2 of the menu then end their round normally with [last_geo_data]
    as it was.  Before a provider of plain replies that is every failure
    of the session, of the status check and of a body that is not JSON: an
    exception that is not below [RequestException] comes from the decoder
    only, on a reply without an error status whose body is JSON. *)
Theorem failure_is_reported (L : platform) (P : wire) (s : Session)
    (ip : option string) (last : json) (w : world) (e : exn) (w1 : world) :
  geo_cache w !! cache_key ip = None ->
  try_fetch_wire L P (Some s) (build_url ip) (build_params API_KEY) (cache_key ip) w
    = (Raise e, w1) ->
  geo_cache w1 = geo_cache w /\
  (is_RequestException e = true ->
     (fetch_notice e = [T "Error: Request timed out. Please check your connection."] \/
      fetch_notice e = [T "HTTP error occurred: "; X e] \/
      fetch_notice e = [T "Request error: "; X e]) /\
     get_ip_geolocation_wire L API_KEY P ip (Some s) w
       = (Ok JNull, add_stdout (fetch_notice e) w1) /\
     locate_by (get_ip_geolocation_wire L API_KEY P) s ip last w
       = (Ok (Continue last), add_stdout (fetch_notice e) w1)) /\
  (plain P -> is_RequestException e = false ->
     (e = ValueError \/ e = RecursionError) /\
     exists resp v,
       session_get_wire L P (Some s) (build_url ip) (build_params API_KEY) 5 w
         = (Ok resp, w1) /\
       ~ 400 <= status_code resp < 600 /\
       body resp = Some v /\ refusal L (max_depth L) v = Some e).
Proof.
  intros Hmiss Htry.
  destruct (try_fetch_wire_outcome _ _ _ _ _ _ _ _ _ Htry)
    as (_ & _ & _ & Hcache & Hexn).
  split; [exact Hcache |]. split.
  - intros Hreq.
    assert (Hfetch : get_ip_geolocation_wire L API_KEY P ip (Some s) w
                     = (Ok JNull, add_stdout (fetch_notice e) w1)).
    { rewrite (cache_miss_wire _ _ _ _ _ _ Hmiss).
      unfold try_except. fold (cache_key ip). rewrite Htry, Hreq. by run. }
    split; [| split; [exact Hfetch |]].
    + unfold fetch_notice. destruct (is_Timeout e); [by left |].
      destruct (is_HTTPError e); auto.
    + unfold locate_by, bind. by rewrite Hfetch.
  - intros _ Hnot.
    destruct Hexn as [Hreq | (resp & v & Hget & Hst & Hbody & Href)];
      [congruence |].
    split; [exact (refusal_cases _ _ _ _ Href) |]. by exists resp, v.
Qed.

(** ** The cache key *)

Lemma string_app_cons (c : ascii) (s t : string) :
  (String c s ++ t = String c (s ++ t))%string.
Proof. reflexivity. Qed.

Lemma string_app_length (s t : string) :
  String.length (s ++ t)%string = (String.length s + String.length t)%nat.
Proof.
  induction s as [| c s IH]; [reflexivity |].
  rewrite string_app_cons. simpl. by rewrite IH.
Qed.

Lemma string_app_assoc (s t u : string) :
  ((s ++ t) ++ u = s ++ (t ++ u))%string.
Proof.
  induction s as [| c s IH]; [reflexivity |].
  rewrite !string_app_cons. by rewrite IH.
Qed.

Lemma string_app_inv_tail (s x y : string) :
  (x ++ s = y ++ s)%string -> x = y.
Proof.
  revert y. induction x as [| c x IH]; intros [| d y] Heq.
  - reflexivity.
  - apply (f_equal String.length) in Heq.
    rewrite !string_app_length in Heq. simpl in Heq. lia.
  - apply (f_equal String.length) in Heq.
    rewrite !string_app_length in Heq. simpl in Heq. lia.
  - rewrite !string_app_cons in Heq. injection Heq as -> Heq.
    by rewrite (IH _ Heq).
Qed.

Lemma build_url_inj (a b : option string) :
  build_url a = build_url b -> effective_target a = effective_target b.
Proof.
  assert (Hself : forall x : string, x <> "" ->
            "https://ipinfo.io/json" <> ("https://ipinfo.io/" ++ x ++ "/json")%string).
  { intros x Hx Heq.
    change "https://ipinfo.io/json" with ("https://ipinfo.io/" ++ "json")%string in Heq.
    apply (inj (String.append _)) in Heq.
    apply (f_equal String.length) in Heq.
    rewrite !string_app_length in Heq. simpl in Heq. lia. }
  unfold build_url, effective_target.
  destruct a as [a |], b as [b |]; try done;
    repeat match goal with
           | |- context [String.eqb ?x ""] =>
               destruct (String.eqb_spec x ""); subst
           end; try done; intros Heq;
    first [ by apply Hself in Heq
          | by (symmetry in Heq; apply Hself in Heq)
          | apply (inj (String.append _)) in Heq;
            by apply string_app_inv_tail in Heq as -> ].
Qed.

(** C7, as the specification words it, does not hold: the self lookup and
    the lookup of the empty address are two targets with one key.  Choice 1
    followed by choice 2 with an empty line makes one outbound attempt; the
    second lookup is answered from the entry of the first. *)
Lemma empty_address_shares_self_key :
  (None : option string) <> Some "" /\
  cache_key None = cache_key (Some "") /\
  (let run := main (H := Decimal.builtins) Sample.healthy
                (Sample.fresh ["1"; "2"; ""; "6"]) in
   fst run = Ok (Some tt) /\ length (net (snd run)) = 1%nat).
Proof. split; [discriminate | split; [reflexivity | by vm_compute]]. Qed.

(** C7, as the code has it.  Under one access token two requests have the
    same key exactly when they have the same target, the empty address
    counting as absent.  So distinct targets never share an entry, the
    self lookup and a literal address included, and equal requests always
    do. *)
Theorem cache_key_distinct (api_key : string) (a b : option string) :
  cache_key_with api_key a = cache_key_with api_key b <->
  effective_target a = effective_target b.
Proof.
  unfold cache_key_with. split.
  - intros Heq. apply string_app_inv_tail in Heq. by apply build_url_inj.
  - intros Heq. f_equal. unfold build_url, effective_target in *.
    destruct a as [a |], b as [b |]; try done;
      repeat match goal with
             | H : context [String.eqb ?x ""] |- _ =>
                 destruct (String.eqb_spec x ""); subst
             end; try done; congruence.
Qed.

(** ** The last result *)

(** C5, as the specification words it, does not hold: a lookup can succeed
    and leave the slot alone.  The provider answers 200 with the empty
    object; the lookup stores it in the cache, and choice 1 keeps the
    record the slot held before. *)
Lemma empty_record_is_not_kept :
  let run := main_body (H := Decimal.builtins) Sample.empty_object setup_session
               Sample.mountain_view (Sample.fresh ["1"]) in
  fst run = Ok (Continue Sample.mountain_view) /\
  geo_cache (snd run) !! cache_key None = Some (JDict []) /\
  length (net (snd run)) = 1%nat.
Proof. vm_compute. repeat split. Qed.

(** The round of the script is the round over its lookup. *)
Lemma main_body_by_lookup `{Builtins} (api_key : string) (E : env) (s : Session)
    (last : json) :
  main_body_with api_key E s last
    = main_body_by (get_ip_geolocation_with api_key E) E s last.
Proof. reflexivity. Qed.

Lemma locate_by_returns (lookup : option string -> option Session -> M json)
    (s : Session) (ip : option string) (last : json) (w : world)
    (c : ctl) (w' : world) :
  locate_by lookup s ip last w = (Ok c, w') ->
  exists g wg,
    lookup ip (Some s) w = (Ok g, wg) /\
    c = Continue (if truthy g then g else last) /\
    (if truthy g then display_details g wg = (Ok tt, w') else w' = wg).
Proof.
  intros Hrun. unfold locate_by in Hrun. unfold bind at 1 in Hrun.
  destruct (lookup ip (Some s) w) as [[g | e] wg]; [| done].
  exists g, wg. split; [done |].
  destruct (truthy g); run; [| by pair_inv].
  destruct (display_details g wg) as [[[] | e] wd]; by pair_inv.
Qed.

(** C5, as the code has it.  Take a round of the menu that ends normally,
    whatever function does the lookup.  After choice 1 the lookup was made
    for the caller's own address, after choice 2 for the line that was
    typed, stripped; it returned a value, and the slot is that value when
    it is true for Python (not [None], not empty, not zero), in which case
    the round went on to display it, and is what it was otherwise, the
    round ending where the lookup did.  Choice 6 ends the loop; every
    other choice, 3, 4 and 5 among them, leaves the slot as it was. *)
Theorem slot_updates `{Builtins}
    (lookup : option string -> option Session -> M json) (E : env) (s : Session)
    (last : json) (w : world) (choice : Z) (w1 : world) (c : ctl) (w' : world) :
  display_menu w = (Ok choice, w1) ->
  main_body_by lookup E s last w = (Ok c, w') ->
  (choice = 1 ->
     exists g wg,
       lookup None (Some s)
         (add_stdout [T (nl ++ "Fetching geolocation for your IP...")%string] w1)
         = (Ok g, wg) /\
       c = Continue (if truthy g then g else last) /\
       (if truthy g then display_details g wg = (Ok tt, w') else w' = wg)) /\
  (choice = 2 ->
     exists l rest g wg,
       stdin w1 = l :: rest /\
       lookup (Some (strip l)) (Some s)
         (add_stdout [T "Fetching geolocation for IP: "; T (strip l); T "..."]
            (set_stdin rest
               (add_stdout [T (nl ++ "Enter IP address to geolocate: ")%string] w1)))
         = (Ok g, wg) /\
       c = Continue (if truthy g then g else last) /\
       (if truthy g then display_details g wg = (Ok tt, w') else w' = wg)) /\
  (choice = 6 -> c = Break) /\
  (choice <> 1 -> choice <> 2 -> choice <> 6 -> c = Continue last).
Proof.
  intros Hmenu Hrun. unfold main_body_by in Hrun.
  unfold bind at 1 in Hrun. rewrite Hmenu in Hrun. unfold dispatch_by in Hrun.
  destruct (Z.eqb_spec choice 1) as [-> | H1].
  { unfold bind at 1 in Hrun. simpl in Hrun.
    apply locate_by_returns in Hrun as (g & wg & Hg & -> & Hw).
    split; [intros _; by exists g, wg |]. by repeat split. }
  destruct (Z.eqb_spec choice 2) as [-> | H2].
  { unfold bind at 1 in Hrun. unfold input in Hrun. run.
    destruct (stdin w1) as [| l rest] eqn:Ein; [done |]. simpl in Hrun.
    apply locate_by_returns in Hrun as (g & wg & Hg & -> & Hw).
    split; [done |]. split; [intros _; by exists l, rest, g, wg |].
    by repeat split. }
  split; [done |]. split; [done |].
  destruct (Z.eqb_spec choice 3) as [-> | H3].
  { unfold bind at 1 in Hrun.
    destruct (truthy last);
      [destruct (display_details last w1) as [[[] | e] wd] |]; run; by pair_inv. }
  destruct (Z.eqb_spec choice 4) as [-> | H4].
  { unfold bind at 1 in Hrun.
    destruct (truthy last);
      [destruct (save_to_file E last _ w1) as [[[] | e] wd] |]; run; by pair_inv. }
  destruct (Z.eqb_spec choice 5) as [-> | H5].
  { unfold bind at 1 in Hrun.
    destruct (render_map E last w1) as [[[] | e] wd]; run; by pair_inv. }
  destruct (Z.eqb_spec choice 6) as [-> | H6]; run; by pair_inv.
Qed.

(** ** The map *)

(** [create_map] reports what goes wrong and returns. *)
Lemma create_map_returns (E : env) (latitude longitude : spec_float)
    (zoom_level : Z) (marker_color : string) (details : json) (w : world) :
  exists w', create_map E latitude longitude zoom_level marker_color details w
             = (Ok tt, w').
Proof.
  unfold create_map, try_except.
  match goal with |- context [match ?m w with _ => _ end] =>
    destruct (m w) as [[[] | e] w1] end; run; eauto.
Qed.


(** The trimming is that of [str.strip]: a no-break space after the name
    goes with the blanks before it. *)
Lemma no_break_space_is_trimmed :
  let typed := (" Red" ++ String (ascii_of_nat 160) "")%string in
  let run := render_map (H := Decimal.builtins) Sample.healthy
               Sample.mountain_view (Sample.fresh ["12"; typed]) in
  fst run = Ok tt /\
  stdout (snd run) =
    [ [T "Enter zoom level (1-18, default 10): "];
      [T (nl ++ "Available marker colors: red, blue, green, purple, orange")%string];
      [T "Enter marker color (default blue): "];
      [T "Map has been saved and opened: "; T "geolocation_map.html"] ] /\
  omap (fun c => match c with FoliumMarker _ _ _ color => Some color | _ => None end)
       (effects (snd run)) = ["red"].
Proof. by vm_compute. Qed.

#[local] Arguments create_map : simpl never.


(** What C10 has right.  Choice 5 declines a record whose location is
    absent or is a text that is not usable.  When the [loc] field of the
    record is absent, or is a text that does not split into exactly two
    parts at the commas, or a text one of whose two parts is not a number,
    the action prints one of its three refusals and returns; the world is
    otherwise untouched, so no collaborator was called and no input was
    read, and the round of the menu ends normally with the record still in
    [last_geo_data]. *)
Lemma render_map_declines `{Builtins} (E : env) (s : Session)
    (d : list (string * json)) (w w1 : world) :
  malformed_loc d ->
  exists notice, notice ∈ render_refusals /\
    render_map E (JDict d) w = (Ok tt, add_stdout notice w) /\
    effects (add_stdout notice w) = effects w /\
    (display_menu w = (Ok 5, w1) ->
     main_body E s (JDict d) w = (Ok (Continue (JDict d)), add_stdout notice w1)).
Proof.
  intros Hbad.
  assert (Hrender : exists notice, notice ∈ render_refusals /\
            forall w, render_map E (JDict d) w = (Ok tt, add_stdout notice w)).
  { clear w w1. unfold render_refusals, render_map.
    destruct d as [| kv d].
    { eexists. split; [| reflexivity]. rewrite !elem_of_cons. auto. }
    change (negb (truthy (JDict (kv :: d)))) with false. cbv iota.
    unfold try_except, render_map_try, loc_parts, py_get.
    destruct Hbad as [Habsent | [(t & Hloc & Hlen) | (t & a & b & Hloc & Hsplit & Hnum)]].
    - rewrite Habsent. run.
      eexists. split; [| reflexivity]. rewrite !elem_of_cons. auto.
    - rewrite Hloc. unfold bind at 1. unfold ret at 1.
      destruct (split_comma t) as [| a [| b [| c l]]]; try done; run;
        (eexists; split; [| reflexivity]; rewrite !elem_of_cons; auto).
    - rewrite Hloc. unfold bind at 1. unfold ret at 1. rewrite Hsplit.
      destruct Hnum as [Ha | Hb].
      + rewrite Ha. run.
        eexists. split; [| reflexivity]. rewrite !elem_of_cons. auto.
      + rewrite Hb. destruct (py_float a); run;
          (eexists; split; [| reflexivity]; rewrite !elem_of_cons; auto). }
  destruct Hrender as (notice & Hin & Hrun).
  exists notice. split; [exact Hin |]. split; [apply Hrun |]. split; [done |].
  intros Hmenu. unfold main_body, main_body_with. unfold bind at 1.
  rewrite Hmenu. unfold dispatch. simpl. unfold bind at 1. by rewrite Hrun.
Qed.

(** A record whose [loc] is present but is not a text is not declined:
    [split] does not exist on it, and the handler of the action, which is
    for [ValueError], does not take the [AttributeError]. *)
Lemma render_map_non_text_loc_raises `{Builtins} (E : env)
    (d : list (string * json)) (v : json) (w : world) :
  assoc "loc" d = Some v ->
  (forall s, v <> JStr s) ->
  render_map E (JDict d) w = (Raise AttributeError, w).
Proof.
  intros Hloc Hv. unfold render_map.
  destruct d as [| kv d]; [done |].
  change (negb (truthy (JDict (kv :: d)))) with false. cbv iota.
  unfold try_except, render_map_try, loc_parts, py_get. rewrite Hloc.
  destruct v; try done. by destruct (Hv s).
Qed.

(** C10.  Choice 5 is not total over records whose location is not usable.
    The provider answers 200 with a record whose [loc] is [null].  Choice 1
    puts the record in the slot; at choice 5 [get] returns [None], which
    has no [split], and the [AttributeError] passes the [except ValueError]
    of the action.  No refusal is printed and no collaborator is called;
    the round does not return to the menu, and the program ends with the
    exception, the line of choice 6 unread. *)
Theorem null_loc_is_not_declined :
  let d := [("ip", JStr "8.8.8.8"); ("loc", JNull)] in
  let w := Sample.fresh ["5"; "6"] in
  let run := main (H := Decimal.builtins) Faults.null_loc
               (Sample.fresh ["1"; "5"; "6"]) in
  render_map (H := Decimal.builtins) Faults.null_loc (JDict d) w
    = (Raise AttributeError, w) /\
  fst (main_body (H := Decimal.builtins) Faults.null_loc setup_session (JDict d) w)
    = Raise AttributeError /\
  fst run = Raise AttributeError /\
  stdin (snd run) = ["6"] /\
  effects (snd run) = [].
Proof. vm_compute. repeat split. Qed.

(** ** The access token *)



(** ** The retry policy against the specification's list *)

(** C2, as the specification words it, does not hold: not every 5xx is
    retried.  A provider that always answers 501 meets the specification's
    retryable conditions at every attempt, yet the lookup makes a single
    attempt, without any pause, and reports the HTTP error; the policy
    allows three retries. *)
Lemma status_501_is_not_retried :
  (forall n r, spec_retryable (provider Sample.not_implemented n r) = true) /\
  (let run := get_ip_geolocation Sample.not_implemented None
                (Some setup_session) (Sample.fresh []) in
   fst run = Ok JNull /\
   net (snd run) = [request_for API_KEY None] /\
   sleeps (snd run) = [] /\
   stdout (snd run) = [ [T "HTTP error occurred: "; X (HTTPError 501)] ]) /\
  total (max_retries setup_session) = 3%nat.
Proof. split; [done | split; [by vm_compute | done]]. Qed.

(** ** The theorems at concrete inputs *)

Section Witnesses.
Import Decimal Sample.

Lemma fetched_at_most_once_witness :
  let w1 := snd (try_fetch healthy (Some setup_session)
                   (build_url (Some "8.8.8.8")) (build_params API_KEY)
                   (cache_key (Some "8.8.8.8")) (fresh [])) in
  get_ip_geolocation unavailable (Some "8.8.8.8") None w1
    = (Ok mountain_view, add_stdout [T "Using cached data..."] w1) /\
  net (snd (get_ip_geolocation unavailable (Some "8.8.8.8") None w1)) = net w1.
Proof.
  intros w1.
  refine (proj2 (fetched_at_most_once healthy setup_session (Some "8.8.8.8")
                   (fresh []) mountain_view w1 _ _)
            w1 (later_now w1) unavailable (Some "8.8.8.8") None eq_refl).
  - reflexivity.
  - subst w1. vm_compute. reflexivity.
Defined.

Lemma retries_exhausted_witness :
  exists e w',
    get_ip_geolocation_wire Faults.stock API_KEY (plainly unavailable) None
      (Some setup_session) (fresh []) = (Ok JNull, w') /\
    net w' = net (fresh []) ++ replicate 4 (request_for API_KEY None) /\
    sleeps w' = sleeps (fresh []) ++ [0; 2; 4] /\
    stdout w' = stdout (fresh []) ++ [fetch_notice e] /\
    geo_cache w' = geo_cache (fresh []).
Proof.
  apply (proj2 (retries_exhausted Faults.stock (plainly unavailable) None
                  (fresh []) eq_refl (fun _ _ => eq_refl))).
  intros n r. reflexivity.
Defined.

Lemma failure_not_cached_witness :
  let w1 := snd (try_fetch recovering (Some setup_session) (build_url None)
                   (build_params API_KEY) (cache_key None) (fresh [])) in
  let w' := add_stdout (fetch_notice RetryError) w1 in
  get_ip_geolocation recovering None (Some setup_session) (fresh [])
    = (Ok JNull, w') /\
  geo_cache w' = geo_cache (fresh []) /\
  fst (get_ip_geolocation recovering None (Some setup_session) w')
    = Ok mountain_view.
Proof.
  intros w1 w'.
  assert (Hmiss : geo_cache (fresh []) !! cache_key None = None) by reflexivity.
  assert (Htry : try_fetch recovering (Some setup_session) (build_url None)
                   (build_params API_KEY) (cache_key None) (fresh [])
                 = (Raise RetryError, w1))
    by (subst w1; vm_compute; reflexivity).
  destruct (failure_not_cached recovering setup_session None (fresh [])
              RetryError w1 Hmiss Htry) as (Hrun & Hcache & _ & Hnext).
  split; [exact Hrun | split; [exact Hcache |]].
  apply (Hnext recovering 200 mountain_view); [| lia].
  subst w' w1. vm_compute. reflexivity.
Defined.

Lemma failure_is_reported_witness :
  let w1 := snd (try_fetch_wire Faults.stock (plainly not_found)
                   (Some setup_session) (build_url None) (build_params API_KEY)
                   (cache_key None) (fresh [])) in
  geo_cache w1 = geo_cache (fresh []) /\
  locate_by (get_ip_geolocation_wire Faults.stock API_KEY (plainly not_found))
    setup_session None mountain_view (fresh [])
    = (Ok (Continue mountain_view), add_stdout (fetch_notice (HTTPError 404)) w1).
Proof.
  intros w1.
  destruct (failure_is_reported Faults.stock (plainly not_found) setup_session
              None mountain_view (fresh []) (HTTPError 404) w1)
    as (Hcache & Hcaught & _).
  - reflexivity.
  - subst w1. vm_compute. reflexivity.
  - split; [exact Hcache |]. apply Hcaught. reflexivity.
Defined.

Lemma slot_updates_witness :
  let w1 := snd (display_menu (fresh ["1"])) in
  let w' := snd (main_body_with API_KEY healthy setup_session JNull (fresh ["1"])) in
  exists g wg,
    get_ip_geolocation healthy None (Some setup_session)
      (add_stdout [T (nl ++ "Fetching geolocation for your IP...")%string] w1)
      = (Ok g, wg) /\
    Continue mountain_view = Continue (if truthy g then g else JNull) /\
    (if truthy g then display_details g wg = (Ok tt, w') else w' = wg).
Proof.
  intros w1 w'.
  refine (proj1 (slot_updates (get_ip_geolocation healthy) healthy setup_session
                   JNull (fresh ["1"]) 1 w1 (Continue mountain_view) w' _ _)
            eq_refl).
  - subst w1. vm_compute. reflexivity.
  - subst w'. vm_compute. reflexivity.
Defined.



Lemma json_body_is_success_witness :
  let w1 := snd (session_get_wire Faults.stock (plainly flaky) (Some setup_session)
                   (build_url None) (build_params API_KEY) 5 (fresh [])) in
  get_ip_geolocation_wire Faults.stock API_KEY (plainly flaky) None
    (Some setup_session) (fresh []) =
    (Ok (JDict []), set_cache (<[cache_key None := JDict []]> (geo_cache w1)) w1).
Proof.
  intros w1.
  apply (json_body_is_success Faults.stock (plainly flaky) setup_session None
           (fresh []) 200 (JDict []) w1).
  - reflexivity.
  - subst w1. vm_compute. reflexivity.
  - lia.
  - reflexivity.
Defined.

Lemma render_map_declines_witness :
  let d := [("ip", JStr "8.8.8.8"); ("loc", JStr "north,west")] in
  exists notice, notice ∈ render_refusals /\
    render_map healthy (JDict d) (fresh ["5"]) = (Ok tt, add_stdout notice (fresh ["5"])) /\
    main_body healthy setup_session (JDict d) (fresh ["5"])
      = (Ok (Continue (JDict d)), add_stdout notice (snd (display_menu (fresh ["5"])))).
Proof.
  intros d.
  destruct (render_map_declines healthy setup_session d (fresh ["5"])
              (snd (display_menu (fresh ["5"]))))
    as (notice & Hin & Hrun & _ & Hround).
  - right. right. exists "north,west", "north", "west".
    split; [reflexivity | split; [reflexivity | left; vm_compute; reflexivity]].
  - exists notice. split; [exact Hin | split; [exact Hrun |]].
    apply Hround. vm_compute. reflexivity.
Defined.

End Witnesses.

(** * Further properties of the script *)

(** ** Reading a choice *)

Lemma get_valid_input_loop_accepts `{Builtins} (prompt : string)
    (valid_options : option (list Z)) (lines : list string) (w : world)
    (value : Z) (w' : world) :
  get_valid_input_loop lines prompt valid_options w = (Ok value, w') ->
  rejected valid_options value = false.
Proof.
  revert w. induction lines as [| l rest IH]; intros w Hrun;
    simpl in Hrun; run; [done |].
  destruct (py_int (strip l)) as [v |];
    [destruct (rejected valid_options v) eqn:Hrej |].
  - by eapply IH.
  - by pair_inv.
  - by eapply IH.
Qed.

(** X1.  The menu hands back one of its six choices only: whatever is
    typed, a value [display_menu] returns is between 1 and 6. *)
Theorem display_menu_in_range `{Builtins} (w : world) (choice : Z) (w' : world) :
  display_menu w = (Ok choice, w') -> 1 <= choice <= 6.
Proof.
  intros Hrun. unfold display_menu, get_valid_input in Hrun. run.
  apply get_valid_input_loop_accepts in Hrun. simpl in Hrun.
  apply negb_false_iff, bool_decide_eq_true in Hrun.
  repeat (apply elem_of_cons in Hrun as [-> | Hrun]; [lia |]).
  by apply elem_of_nil in Hrun.
Qed.

Lemma get_valid_input_loop_skips `{Builtins} (prompt : string)
    (valid_options : option (list Z)) (bad : list string) (l : string)
    (rest : list string) (value : Z) (w : world) :
  Forall (fun b => acceptable valid_options b = false) bad ->
  py_int (strip l) = Some value ->
  rejected valid_options value = false ->
  exists w',
    get_valid_input_loop (bad ++ l :: rest) prompt valid_options w = (Ok value, w') /\
    stdin w' = rest /\
    length (stdout w') = (length (stdout w) + 2 * length bad + 1)%nat /\
    geo_cache w' = geo_cache w /\ net w' = net w /\ effects w' = effects w.
Proof.
  intros Hbad Hint Hok. revert w.
  induction Hbad as [| b bad Hb _ IH]; intros w; simpl; run.
  - rewrite Hint, Hok. eexists. split; [reflexivity |]. simpl.
    rewrite length_app. simpl. repeat split; lia.
  - unfold acceptable in Hb.
    destruct (py_int (strip b)) as [v |];
      [destruct (rejected valid_options v); [| done] |];
      (match goal with |- context [get_valid_input_loop _ _ _ ?w0] =>
         destruct (IH w0) as (w' & Hrun & Hin & Hout & Hc & Hn & He)
       end;
       exists w'; split; [exact Hrun |]; simpl in *;
       rewrite Hout, !length_app; simpl; repeat split; try done; lia).
Qed.

(** X2.  [get_valid_input] passes over the lines it cannot take.  When the
    input starts with lines that do not read as an integer, or read as one
    the options do not allow, and then has a line that reads as an allowed
    integer, it returns that integer, has consumed the lines up to it, and
    has printed the prompt for every line and one notice for every line
    it passed over; the cache, the network and the collaborators are not
    touched. *)
Theorem get_valid_input_skips `{Builtins} (prompt : string)
    (valid_options : option (list Z)) (bad : list string) (l : string)
    (rest : list string) (value : Z) (w : world) :
  stdin w = bad ++ l :: rest ->
  Forall (fun b => acceptable valid_options b = false) bad ->
  py_int (strip l) = Some value ->
  rejected valid_options value = false ->
  exists w',
    get_valid_input prompt valid_options w = (Ok value, w') /\
    stdin w' = rest /\
    length (stdout w') = (length (stdout w) + 2 * length bad + 1)%nat /\
    geo_cache w' = geo_cache w /\ net w' = net w /\ effects w' = effects w.
Proof.
  intros Hin Hbad Hint Hok. unfold get_valid_input, bind, get_world.
  rewrite Hin. by apply get_valid_input_loop_skips.
Qed.

Lemma get_valid_input_loop_eof `{Builtins} (prompt : string)
    (valid_options : option (list Z)) (lines : list string) (w : world) :
  Forall (fun b => acceptable valid_options b = false) lines ->
  exists w',
    get_valid_input_loop lines prompt valid_options w = (Raise EOFError, w') /\
    (lines <> [] -> stdin w' = []) /\
    length (stdout w') = (length (stdout w) + 2 * length lines + 1)%nat.
Proof.
  intros Hbad. revert w.
  induction Hbad as [| b bad Hb _ IH]; intros w; simpl; run.
  - eexists. split; [reflexivity |]. simpl. rewrite length_app. simpl.
    split; [done | lia].
  - unfold acceptable in Hb.
    destruct (py_int (strip b)) as [v |];
      [destruct (rejected valid_options v); [| done] |];
      (match goal with |- context [get_valid_input_loop _ _ _ ?w0] =>
         destruct (IH w0) as (w' & Hrun & Hin & Hout)
       end;
       exists w'; split; [exact Hrun |]; simpl in *;
       rewrite Hout, !length_app; simpl; split; [| lia];
       intros _; destruct bad; [| by apply Hin];
       simpl in Hrun; run; by pair_inv).
Qed.

(** X3.  When no line that is left can be taken, [get_valid_input] does not
    loop for ever and does not return a default: it consumes the whole
    input, prompting for every line and once more, and raises the
    [EOFError] of [input]. *)
Theorem get_valid_input_eof `{Builtins} (prompt : string)
    (valid_options : option (list Z)) (w : world) :
  Forall (fun b => acceptable valid_options b = false) (stdin w) ->
  exists w',
    get_valid_input prompt valid_options w = (Raise EOFError, w') /\
    stdin w' = [] /\
    length (stdout w') = (length (stdout w) + 2 * length (stdin w) + 1)%nat.
Proof.
  intros Hbad. unfold get_valid_input, bind, get_world.
  destruct (get_valid_input_loop_eof prompt valid_options _ w Hbad)
    as (w' & Hrun & Hin & Hout).
  exists w'. split; [exact Hrun |]. split; [| exact Hout].
  destruct (stdin w) eqn:Ew; [| by apply Hin].
  simpl in Hrun. run. pair_inv. done.
Qed.

(** ** What can be raised *)

Section Escapes.

Variable P : exn -> Prop.

Lemma raises_only_ret {A} (a : A) : raises_only P (ret a).
Proof. intros w e w' Hrun. run. by pair_inv. Qed.

Lemma raises_only_raise {A} (e : exn) : P e -> raises_only P (@raise A e).
Proof. intros He w e' w' Hrun. run. by pair_inv. Qed.

Lemma raises_only_print (l : line) : raises_only P (print l).
Proof. intros w e w' Hrun. run. by pair_inv. Qed.

Lemma raises_only_bind {A B} (m : M A) (k : A -> M B) :
  raises_only P m -> (forall a, raises_only P (k a)) -> raises_only P (bind m k).
Proof.
  intros Hm Hk w e w' Hrun. unfold bind in Hrun.
  destruct (m w) as [[a | e0] w1] eqn:Em.
  - eapply Hk, Hrun.
  - pair_inv. eapply Hm, Em.
Qed.

Lemma raises_only_try {A} (m : M A) (handles : exn -> bool) (h : exn -> M A) :
  raises_only (fun e => handles e = true \/ P e) m ->
  (forall e, raises_only P (h e)) ->
  raises_only P (try_except m handles h).
Proof.
  intros Hm Hh w e w' Hrun. unfold try_except in Hrun.
  destruct (m w) as [[a | e0] w1] eqn:Em; [done |].
  destruct (handles e0) eqn:Ehandles.
  - eapply Hh, Hrun.
  - pair_inv. destruct (Hm _ _ _ Em) as [Htaken | HP]; [congruence | done].
Qed.

Lemma raises_only_input (prompt : string) :
  P EOFError -> raises_only P (input prompt).
Proof.
  intros HP w e w' Hrun. unfold input in Hrun. run.
  destruct (stdin w); by pair_inv.
Qed.

Lemma raises_only_get_valid_input `{Builtins} (prompt : string)
    (valid_options : option (list Z)) :
  P EOFError -> raises_only P (get_valid_input prompt valid_options).
Proof.
  intros HP w e w' Hrun. unfold get_valid_input in Hrun. run.
  remember (stdin w) as lines eqn:Elines. clear Elines.
  revert w Hrun. induction lines as [| l rest IH]; intros w Hrun;
    simpl in Hrun; run; [by pair_inv |].
  destruct (py_int (strip l)) as [v |];
    [destruct (rejected valid_options v) |].
  - by eapply IH.
  - done.
  - by eapply IH.
Qed.

Lemma raises_only_display_details (geo_data : json) :
  P AttributeError -> raises_only P (display_details geo_data).
Proof.
  intros HP w e w' Hrun. unfold display_details in Hrun.
  destruct (negb (truthy geo_data)); run; [done |].
  destruct geo_data; by pair_inv.
Qed.

Lemma raises_only_get_ip_geolocation (api_key : string) (E : env)
    (ip_address : option string) (s : Session) :
  raises_only P (get_ip_geolocation_with api_key E ip_address (Some s)).
Proof.
  intros w e w' Hrun.
  destruct (get_ip_geolocation_returns api_key E ip_address s w) as (v & w1 & Hok).
  congruence.
Qed.

Lemma raises_only_create_map (E : env) (latitude longitude : spec_float)
    (zoom_level : Z) (marker_color : string) (details : json) :
  raises_only P (create_map E latitude longitude zoom_level marker_color details).
Proof.
  intros w e w' Hrun.
  destruct (create_map_returns E latitude longitude zoom_level marker_color
              details w) as [w1 Hok].
  congruence.
Qed.

Lemma raises_only_save_to_file (E : env) (geo_data : json) (filename : string) :
  raises_only P (save_to_file E geo_data filename).
Proof.
  intros w e w' Hrun. unfold save_to_file, try_except, call in Hrun. run.
  destruct (collab_error E (FileAppend filename geo_data)); by pair_inv.
Qed.

End Escapes.

Ltac escapes_step :=
  match goal with
  | |- raises_only _ (bind _ _) => apply raises_only_bind; [| intros ?]
  | |- raises_only _ (ret _) => apply raises_only_ret
  | |- raises_only _ (print _) => apply raises_only_print
  | |- raises_only _ (display_details _) => apply raises_only_display_details
  | |- raises_only _ (get_ip_geolocation_with _ _ _ (Some _)) =>
      apply raises_only_get_ip_geolocation
  | |- raises_only _ (create_map _ _ _ _ _ _) => apply raises_only_create_map
  | |- raises_only _ (save_to_file _ _ _) => apply raises_only_save_to_file
  | |- raises_only _ (get_valid_input _ _) => apply raises_only_get_valid_input
  | |- raises_only _ (input _) => apply raises_only_input
  | |- raises_only _ (raise _) => apply raises_only_raise
  | |- raises_only _ (if ?b then _ else _) => destruct b
  | |- raises_only _ (match ?x with _ => _ end) => destruct x
  end.

Lemma raises_only_render_map `{Builtins} (E : env) (last_geo_data : json) :
  raises_only escapes (render_map E last_geo_data).
Proof.
  unfold render_map.
  destruct (negb (truthy last_geo_data)); [apply raises_only_print |].
  apply raises_only_try; [| intros; apply raises_only_print].
  unfold render_map_try, loc_parts, escapes.
  repeat escapes_step; auto.
Qed.

Lemma raises_only_dispatch `{Builtins} (api_key : string) (E : env)
    (session : Session) (last_geo_data : json) (choice : Z) :
  raises_only escapes (dispatch api_key E session last_geo_data choice).
Proof.
  unfold dispatch, locate.
  repeat first [ apply raises_only_render_map | escapes_step ];
    unfold escapes; auto.
Qed.

Lemma raises_only_main_body `{Builtins} (api_key : string) (E : env)
    (session : Session) (last_geo_data : json) :
  raises_only escapes (main_body_with api_key E session last_geo_data).
Proof.
  unfold main_body_with, display_menu.
  repeat escapes_step; try apply raises_only_dispatch; unfold escapes; auto.
Qed.

(** ** How a round and the run end *)

Lemma display_details_returns (geo_data : json) (w w' : world) :
  truthy geo_data = true ->
  display_details geo_data w = (Ok tt, w') ->
  exists d, geo_data = JDict d /\ d <> [].
Proof.
  intros Htruthy Hrun. unfold display_details in Hrun. rewrite Htruthy in Hrun.
  simpl in Hrun. destruct geo_data; run; try done.
  exists d. split; [done |]. by destruct d.
Qed.

Lemma locate_returns (api_key : string) (E : env) (s : Session)
    (ip : option string) (last : json) (w : world) (c : ctl) (w' : world) :
  locate api_key E s ip last w = (Ok c, w') ->
  c = Continue last \/ exists d, c = Continue (JDict d) /\ d <> [].
Proof.
  intros Hrun. unfold locate in Hrun. unfold bind at 1 in Hrun.
  destruct (get_ip_geolocation_with _ _ _ _ w) as [[g | e] wg]; [| done].
  destruct (truthy g) eqn:Htruthy; run; [| pair_inv; by left].
  destruct (display_details g wg) as [[[] | e] wd] eqn:Ed; pair_inv.
  right. destruct (display_details_returns _ _ _ Htruthy Ed) as (d & -> & Hd).
  by exists d.
Qed.

Lemma dispatch_returns `{Builtins} (api_key : string) (E : env) (s : Session)
    (last : json) (choice : Z) (w : world) (c : ctl) (w' : world) :
  dispatch api_key E s last choice w = (Ok c, w') ->
  match c with
  | Break => choice = 6 /\ w' = add_stdout goodbye w
  | Continue v => v = last \/ exists d, v = JDict d /\ d <> []
  end.
Proof.
  intros Hrun. unfold dispatch in Hrun.
  destruct (Z.eqb_spec choice 1) as [-> | H1].
  { unfold bind at 1 in Hrun. simpl in Hrun.
    apply locate_returns in Hrun as [-> | (d & -> & Hd)]; eauto. }
  destruct (Z.eqb_spec choice 2) as [-> | H2].
  { unfold bind at 1 in Hrun.
    destruct (input _ w) as [[l | e] wi]; [| done].
    unfold bind at 1 in Hrun. simpl in Hrun.
    apply locate_returns in Hrun as [-> | (d & -> & Hd)]; eauto. }
  destruct (Z.eqb_spec choice 3) as [-> | H3].
  { unfold bind at 1 in Hrun.
    destruct (truthy last);
      [destruct (display_details last w) as [[[] | e] wd] |]; run; pair_inv; auto. }
  destruct (Z.eqb_spec choice 4) as [-> | H4].
  { unfold bind at 1 in Hrun.
    destruct (truthy last);
      [destruct (save_to_file E last _ w) as [[[] | e] wd] |]; run; pair_inv; auto. }
  destruct (Z.eqb_spec choice 5) as [-> | H5].
  { unfold bind at 1 in Hrun.
    destruct (render_map E last w) as [[[] | e] wd]; run; pair_inv; auto. }
  destruct (Z.eqb_spec choice 6) as [-> | H6]; run; pair_inv; auto.
Qed.

(** X5.  The slot holds [None] or a dictionary that is not empty, and every
    round that ends normally keeps it so: a value that is false for Python
    is never stored, and a value that is not a dictionary does not survive
    the display that follows the lookup. *)
Theorem slot_stays_ok `{Builtins} (api_key : string) (E : env) (s : Session)
    (last : json) (w : world) (v : json) (w' : world) :
  slot_ok last ->
  main_body_with api_key E s last w = (Ok (Continue v), w') ->
  slot_ok v.
Proof.
  intros Hlast Hrun. unfold main_body_with in Hrun. unfold bind at 1 in Hrun.
  destruct (display_menu w) as [[choice | e] wm]; [| done].
  apply dispatch_returns in Hrun as [-> | Hdict]; [done | by right].
Qed.

(** ** The three ways a lookup ends *)

Lemma lookup_cases (api_key : string) (E : env) (ip : option string)
    (s : Session) (w : world) (v : json) (w' : world) :
  get_ip_geolocation_with api_key E ip (Some s) w = (Ok v, w') ->
  let key := cache_key_with api_key ip in
  stdin w' = stdin w /\ effects w' = effects w /\
  ((geo_cache w !! key = Some v /\
    w' = add_stdout [T "Using cached data..."] w) \/
   (geo_cache w !! key = None /\
    geo_cache w' = <[key := v]> (geo_cache w) /\ stdout w' = stdout w) \/
   (geo_cache w !! key = None /\ v = JNull /\
    geo_cache w' = geo_cache w /\
    exists e, stdout w' = stdout w ++ [fetch_notice e])).
Proof.
  intros Hrun key.
  destruct (geo_cache w !! key) as [v0 |] eqn:Ekey.
  - rewrite (cache_hit api_key E ip (Some s) w v0 Ekey) in Hrun. pair_inv.
    split; [done | split; [done | by left]].
  - rewrite (cache_miss api_key E ip (Some s) w Ekey) in Hrun.
    unfold try_except in Hrun.
    destruct (try_fetch _ _ _ _ _ w) as [[v1 | e] w1] eqn:Etry.
    + pair_inv.
      destruct (try_fetch_outcome _ _ _ _ _ _ _ _ Etry) as (Hc & Hi & Ho & He & _).
      split; [done | split; [done | right; left; by repeat split]].
    + destruct (try_fetch_outcome _ _ _ _ _ _ _ _ Etry)
        as ([Hexn Hc] & Hi & Ho & He & _).
      rewrite Hexn in Hrun. run. pair_inv. simpl.
      split; [done | split; [done | right; right]].
      split; [done | split; [done | split; [done |]]].
      exists e. by rewrite Ho.
Qed.

Lemma returned_value_is_cached (api_key : string) (E : env)
    (ip : option string) (s : Session) (w : world) (v : json) (w' : world) :
  get_ip_geolocation_with api_key E ip (Some s) w = (Ok v, w') ->
  v <> JNull ->
  geo_cache w' !! cache_key_with api_key ip = Some v.
Proof.
  intros Hrun Hv.
  destruct (lookup_cases _ _ _ _ _ _ _ Hrun)
    as (_ & _ & [[Hhit ->] | [(_ & -> & _) | (_ & -> & _)]]).
  - exact Hhit.
  - apply lookup_insert_eq.
  - done.
Qed.

(** X10.  A lookup given a session that returns has ended in one of three
    ways (the fourth way to end is to raise, which the decoder can make
    it do).  Served from the cache: the entry is returned and one line is printed, nothing else
    changes.  Fetched: the value is stored under the key, which was free,
    and nothing is printed.  Failed: [None] is returned, the cache is as it
    was, one notice is printed.  It never reads input and never calls a
    collaborator, it changes no entry under another key, and whatever it
    returns other than [None] is in the cache under the key afterwards. *)
Theorem lookup_outcomes (api_key : string) (E : env) (ip : option string)
    (s : Session) (w : world) (v : json) (w' : world) :
  get_ip_geolocation_with api_key E ip (Some s) w = (Ok v, w') ->
  let key := cache_key_with api_key ip in
  stdin w' = stdin w /\ effects w' = effects w /\
  ((geo_cache w !! key = Some v /\
    w' = add_stdout [T "Using cached data..."] w) \/
   (geo_cache w !! key = None /\
    geo_cache w' = <[key := v]> (geo_cache w) /\ stdout w' = stdout w) \/
   (geo_cache w !! key = None /\ v = JNull /\
    geo_cache w' = geo_cache w /\
    exists e, stdout w' = stdout w ++ [fetch_notice e])) /\
  (forall k, k <> key -> geo_cache w' !! k = geo_cache w !! k) /\
  (v <> JNull -> geo_cache w' !! key = Some v).
Proof.
  intros Hrun key.
  destruct (lookup_cases _ _ _ _ _ _ _ Hrun) as (Hin & Heff & Hcases).
  split; [exact Hin |]. split; [exact Heff |]. split; [exact Hcases |]. split.
  - intros k Hk.
    destruct Hcases as [[_ ->] | [(_ & -> & _) | (_ & _ & -> & _)]]; try done.
    by apply lookup_insert_ne.
  - by apply (returned_value_is_cached _ _ _ _ _ _ _ Hrun).
Qed.

(** X9.  The session is needed only when the provider is.  Called without a
    session, as the default of the parameter allows, the lookup answers
    from the cache when the key is there; when it is not, the call raises
    an [AttributeError] that none of its handlers takes, before anything
    is sent, printed or stored. *)
Theorem lookup_without_session (api_key : string) (E : env)
    (ip : option string) (w : world) :
  match geo_cache w !! cache_key_with api_key ip with
  | Some v =>
      get_ip_geolocation_with api_key E ip None w
        = (Ok v, add_stdout [T "Using cached data..."] w)
  | None =>
      get_ip_geolocation_with api_key E ip None w = (Raise AttributeError, w)
  end.
Proof.
  destruct (geo_cache w !! _) as [v |] eqn:Ekey.
  - by apply cache_hit.
  - by rewrite (cache_miss _ _ _ _ _ Ekey).
Qed.

(** ** Values that are not records *)

(** X12.  A value that is true for Python but is not a dictionary ends the
    session.  When the lookup of choice 1 or 2 returns such a value (a
    list, a text, a number), the display raises an [AttributeError] after
    its heading; the value is in the cache by then, so looking the same
    address up again meets it again. *)
Theorem non_dict_value_ends_session (api_key : string) (E : env) (s : Session)
    (ip : option string) (slot : json) (w : world) (v : json) (wg : world) :
  truthy v = true ->
  (forall d, v <> JDict d) ->
  get_ip_geolocation_with api_key E ip (Some s) w = (Ok v, wg) ->
  locate api_key E s ip slot w
    = (Raise AttributeError,
       add_stdout [T (nl ++ "=== Geolocation Details ===")%string] wg) /\
  geo_cache wg !! cache_key_with api_key ip = Some v.
Proof.
  intros Htruthy Hdict Hrun. split.
  - unfold locate, bind. rewrite Hrun, Htruthy.
    unfold display_details. rewrite Htruthy. simpl. run.
    destruct v; try done. by destruct (Hdict d).
  - apply (returned_value_is_cached _ _ _ _ _ _ _ Hrun).
    by intros ->.
Qed.

(** ** Choices that stay at home *)

Ltac offline_side :=
  solve [ intros; unfold offline in *; simpl; intuition congruence ].

(** X8.  Only the two locate choices reach the provider or the cache: a
    round on any other choice, however it ends, leaves the cache, the log
    of outbound attempts and the log of pauses as they were. *)
Theorem other_choices_stay_offline `{Builtins} (api_key : string) (E : env)
    (s : Session) (slot : json) (choice : Z) (w : world)
    (r : res ctl) (w' : world) :
  choice <> 1 -> choice <> 2 ->
  dispatch api_key E s slot choice w = (r, w') ->
  offline w w'.
Proof.
  intros H1 H2. revert w r w'. fold (respects offline (dispatch api_key E s slot choice)).
  unfold dispatch.
  destruct (Z.eqb_spec choice 1); [done |].
  destruct (Z.eqb_spec choice 2); [done |].
  repeat match goal with
         | |- respects _ (if ?b then _ else _) => destruct b
         end;
    repeat first
      [ apply respects_bind; [| | intros ?]
      | apply respects_ret
      | apply respects_print
      | apply respects_display_details
      | apply respects_save_to_file
      | apply respects_render_map
      | match goal with
        | |- respects _ (if ?b then _ else _) => destruct b
        end ];
    try offline_side.
Qed.

(** X6.  Showing and saving are safe on every slot the loop can hold.  With
    the slot [None] or a dictionary that is not empty, choices 3 and 4
    return and leave the slot alone; they read no input and stay offline.
    Choice 4 appends the record to [geolocation_data.json] exactly once
    when there is a record, and choice 3, or an empty slot, calls no
    collaborator at all. *)
Theorem show_and_save `{Builtins} (api_key : string) (E : env) (s : Session)
    (slot : json) (choice : Z) (w : world) :
  slot_ok slot ->
  choice = 3 \/ choice = 4 ->
  exists w',
    dispatch api_key E s slot choice w = (Ok (Continue slot), w') /\
    stdin w' = stdin w /\ offline w w' /\
    effects w' = effects w ++
      (if (choice =? 4) && truthy slot
       then [FileAppend "geolocation_data.json" slot] else []).
Proof.
  intros [-> | (d & -> & Hd)] [-> | ->]; unfold dispatch; simpl.
  - run. eexists. split; [reflexivity |]. simpl. rewrite app_nil_r.
    by repeat split.
  - run. eexists. split; [reflexivity |]. simpl. rewrite app_nil_r.
    by repeat split.
  - destruct d as [| kv d]; [done |]. unfold display_details. simpl. run.
    eexists. split; [reflexivity |]. simpl. rewrite app_nil_r.
    by repeat split.
  - destruct d as [| kv d]; [done |].
    unfold save_to_file, try_except, call. simpl. run.
    destruct (collab_error E _);
      (eexists; split; [reflexivity |]; by repeat split).
Qed.

(** ** The map collaborators *)

(** X7.  [create_map] on a record never raises.  It calls the collaborators
    in the order of the source, the map, the marker, the save, the browser,
    and stops at the first that fails; it prints the message of that
    failure, or the success line when none fails; so the browser is opened
    only on a map that was saved.  Input, cache and network are not
    touched. *)
Theorem create_map_calls (E : env) (latitude longitude : spec_float)
    (zoom_level : Z) (marker_color : string) (d : list (string * json))
    (w : world) :
  let calls := map_calls latitude longitude zoom_level marker_color
                 (popup_of latitude longitude d) in
  exists w',
    create_map E latitude longitude zoom_level marker_color (JDict d) w
      = (Ok tt, w') /\
    effects w' = effects w ++ until_failure E calls /\
    stdout w' = stdout w ++
      [match first_failure E calls with
       | Some msg => [T "Error creating the map: "; X (OtherError msg)]
       | None => [T "Map has been saved and opened: "; T map_filename]
       end] /\
    stdin w' = stdin w /\ offline w w' /\
    (BrowserOpen map_filename ∈ until_failure E calls ->
     collab_error E (MapSave map_filename) = None).
Proof.
  intros calls. subst calls.
  unfold create_map, try_except, popup_text, call, map_calls.
  destruct d as [| kv d]; simpl; run;
    repeat (match goal with
            | |- context [collab_error E ?c] =>
                destruct (collab_error E c) eqn:?; simpl
            end);
    (eexists; split; [reflexivity |]; simpl; rewrite <- ?app_assoc; simpl;
     repeat split; try done;
     intros Hin;
     repeat (apply elem_of_cons in Hin as [Heq | Hin]; [discriminate Heq |]);
     by apply elem_of_nil in Hin).
Qed.

(** ** The location text *)

Lemma split_comma_length (s : string) :
  length (split_comma s) = S (count_commas s).
Proof.
  induction s as [| c s IH]; [reflexivity |]. simpl.
  destruct (Ascii.eqb c ","%char); simpl; [by rewrite IH |].
  destruct (split_comma s) as [| p ps]; [done |]. exact IH.
Qed.

(** X11.  The location is counted in commas.  The text of [loc] splits into
    one part more than it has commas; when it does not have exactly one
    comma, choice 5 declines the record as not extractable, before it
    converts anything or asks anything, and when it has exactly one, the
    two parts go on to the conversion. *)
Theorem location_needs_one_comma `{Builtins} (E : env)
    (d : list (string * json)) (s : string) (w : world) :
  d <> [] ->
  assoc "loc" d = Some (JStr s) ->
  length (split_comma s) = S (count_commas s) /\
  (count_commas s <> 1%nat ->
   render_map E (JDict d) w
     = (Ok tt, add_stdout [T "Error: Could not extract location data."] w)) /\
  (count_commas s = 1%nat -> exists a b, split_comma s = [a; b]).
Proof.
  intros Hd Hloc. pose proof (split_comma_length s) as Hlen.
  split; [exact Hlen |]. split.
  - intros Hcount. unfold render_map.
    destruct d as [| kv d]; [done |].
    change (negb (truthy (JDict (kv :: d)))) with false. cbv iota.
    unfold try_except, render_map_try, loc_parts, py_get. rewrite Hloc.
    unfold bind at 1. unfold ret at 1.
    destruct (split_comma s) as [| a [| b [| c l]]]; simpl in Hlen;
      try done; lia.
  - intros Hcount. rewrite Hcount in Hlen.
    destruct (split_comma s) as [| a [| b [| c l]]]; simpl in Hlen;
      try lia. by exists a, b.
Qed.

(** ** The empty address *)

(** X13.  A blank line at the address prompt is the self lookup.  When the
    line typed for choice 2 is empty once trimmed, the round goes on as
    choice 1 does after its own message: the same request, the same cache
    entry, the same update of the slot. *)
Theorem blank_address_is_self `{Builtins} (api_key : string) (E : env)
    (s : Session) (slot : json) (l : string) (rest : list string) (w : world) :
  stdin w = l :: rest ->
  strip l = "" ->
  dispatch api_key E s slot 2 w =
    locate api_key E s None slot
      (add_stdout [T "Fetching geolocation for IP: "; T ""; T "..."]
         (set_stdin rest
            (add_stdout [T (nl ++ "Enter IP address to geolocate: ")%string] w))).
Proof.
  intros Hin Hstrip. unfold dispatch. simpl. unfold input. run.
  rewrite Hin. simpl. rewrite Hstrip. reflexivity.
Qed.

(** ** Locating again *)

(** X14.  Locating an address whose record is cached asks nobody.  When the
    cache holds a dictionary that is not empty under the key of the
    address, choice 1 or 2 prints the cache notice and the eight lines of
    the details, makes that record the last result, and touches neither
    the network nor the cache nor the input, whatever the provider would
    have answered. *)
Theorem locate_from_cache (api_key : string) (E : env) (s : Session)
    (ip : option string) (slot : json) (d : list (string * json)) (w : world) :
  geo_cache w !! cache_key_with api_key ip = Some (JDict d) ->
  d <> [] ->
  exists w',
    locate api_key E s ip slot w = (Ok (Continue (JDict d)), w') /\
    offline w w' /\ stdin w' = stdin w /\ effects w' = effects w /\
    stdout w' = stdout w ++
      [ [T "Using cached data..."];
        [T (nl ++ "=== Geolocation Details ===")%string];
        [T "IP: "; V (py_get d "ip" (JStr "N/A"))];
        [T "City: "; V (py_get d "city" (JStr "N/A"))];
        [T "Region: "; V (py_get d "region" (JStr "N/A"))];
        [T "Country: "; V (py_get d "country" (JStr "N/A"))];
        [T "Organization: "; V (py_get d "org" (JStr "N/A"))];
        [T "Timezone: "; V (py_get d "timezone" (JStr "N/A"))];
        [T "Coordinates: "; V (py_get d "loc" (JStr "N/A"))] ].
Proof.
  intros Hhit Hd. unfold locate, bind.
  rewrite (cache_hit _ E _ (Some s) _ _ Hhit).
  destruct d as [| kv d]; [done |]. unfold display_details. simpl. run.
  eexists. split; [reflexivity |]. simpl. rewrite <- !app_assoc. simpl.
  by repeat split.
Qed.

(** ** When the map action raises *)

Lemma render_map_text_loc_raises_eof `{Builtins} (E : env)
    (d : list (string * json)) (s : string) :
  py_get d "loc" (JStr "") = JStr s ->
  raises_only (fun e => e = EOFError) (render_map E (JDict d)).
Proof.
  intros Hloc. unfold render_map.
  destruct (negb (truthy (JDict d))); [apply raises_only_print |].
  apply raises_only_try; [| intros; apply raises_only_print].
  unfold render_map_try, loc_parts. rewrite Hloc.
  repeat escapes_step; auto.
Qed.

(** X15.  The one way the map action meets a missing method.  On a slot the
    loop can hold, choice 5 raises an [AttributeError] exactly when the
    record has a [loc] that is not a text; with [loc] absent or a text,
    all it can raise is the [EOFError] of an input that ran out. *)
Theorem render_map_raises `{Builtins} (E : env) (slot : json) (w : world) :
  slot_ok slot ->
  (fst (render_map E slot w) = Raise AttributeError <->
   exists d v, slot = JDict d /\ assoc "loc" d = Some v /\
               forall s, v <> JStr s) /\
  (forall e, fst (render_map E slot w) = Raise e ->
             e = EOFError \/ e = AttributeError).
Proof.
  intros Hslot. split.
  - split.
    + intros Hrun. destruct Hslot as [-> | (d & -> & Hd)].
      { unfold render_map in Hrun. simpl in Hrun. by run. }
      exists d. destruct (assoc "loc" d) as [v |] eqn:Eloc.
      * exists v. split; [done |]. split; [done |]. intros s ->.
        destruct (render_map E (JDict d) w) as [r w'] eqn:Erun.
        simpl in Hrun. subst r.
        assert (Hget : py_get d "loc" (JStr "") = JStr s)
          by (unfold py_get; by rewrite Eloc).
        by pose proof (render_map_text_loc_raises_eof E d s Hget _ _ _ Erun).
      * destruct (render_map E (JDict d) w) as [r w'] eqn:Erun.
        simpl in Hrun. subst r.
        assert (Hget : py_get d "loc" (JStr "") = JStr "")
          by (unfold py_get; by rewrite Eloc).
        by pose proof (render_map_text_loc_raises_eof E d "" Hget _ _ _ Erun).
    + intros (d & v & -> & Hloc & Hv).
      by rewrite (render_map_non_text_loc_raises E d v w Hloc Hv).
  - intros e Hrun.
    destruct (render_map E slot w) as [r w'] eqn:Erun. simpl in Hrun. subst r.
    exact (raises_only_render_map E slot _ _ _ Erun).
Qed.

(** ** The further properties at concrete inputs *)

Section FurtherWitnesses.
Import Decimal Sample Cases.

Lemma display_menu_in_range_witness : 1 <= 3 <= 6.
Proof.
  apply (display_menu_in_range (fresh ["7"; "x"; "3"]) 3
           (snd (display_menu (fresh ["7"; "x"; "3"])))).
  vm_compute. reflexivity.
Defined.

Lemma get_valid_input_skips_witness :
  exists w',
    get_valid_input "Choose an option (1-6): " (Some [1; 2; 3; 4; 5; 6])
      (fresh ["7"; "abc"; "3"; "5"]) = (Ok 3, w') /\
    stdin w' = ["5"] /\
    length (stdout w') = 5%nat /\
    geo_cache w' = ∅ /\ net w' = [] /\ effects w' = [].
Proof.
  apply (get_valid_input_skips "Choose an option (1-6): "
           (Some [1; 2; 3; 4; 5; 6]) ["7"; "abc"] "3" ["5"] 3
           (fresh ["7"; "abc"; "3"; "5"])).
  - reflexivity.
  - repeat constructor.
  - reflexivity.
  - reflexivity.
Defined.

Lemma get_valid_input_eof_witness :
  exists w',
    get_valid_input "Enter zoom level (1-18, default 10): " None
      (fresh ["abc"; ""]) = (Raise EOFError, w') /\
    stdin w' = [] /\
    length (stdout w') = 5%nat.
Proof.
  apply (get_valid_input_eof "Enter zoom level (1-18, default 10): " None
           (fresh ["abc"; ""])).
  repeat constructor.
Defined.

Lemma slot_stays_ok_witness : slot_ok mountain_view.
Proof.
  apply (slot_stays_ok API_KEY healthy setup_session JNull (fresh ["1"])
           mountain_view
           (snd (main_body_with API_KEY healthy setup_session JNull (fresh ["1"])))).
  - by left.
  - vm_compute. reflexivity.
Defined.

Lemma show_and_save_witness :
  exists w',
    dispatch API_KEY healthy setup_session mountain_view 4 (fresh []) =
      (Ok (Continue mountain_view), w') /\
    stdin w' = [] /\ offline (fresh []) w' /\
    effects w' = [FileAppend "geolocation_data.json" mountain_view].
Proof.
  apply (show_and_save API_KEY healthy setup_session mountain_view 4 (fresh [])).
  - right. eexists. split; [reflexivity | discriminate].
  - by right.
Defined.

Lemma create_map_calls_witness :
  exists w',
    create_map read_only_disk lat lon 12 "green" mountain_view (fresh []) = (Ok tt, w') /\
    omap (fun c => match c with
                   | FoliumMap _ _ _ => Some "map"
                   | FoliumMarker _ _ _ _ => Some "marker"
                   | MapSave _ => Some "save"
                   | BrowserOpen _ => Some "browser"
                   | FileAppend _ _ => None
                   end) (effects w') = ["map"; "marker"; "save"] /\
    stdout w' = [ [T "Error creating the map: "; X (OtherError "Permission denied")] ].
Proof.
  destruct (create_map_calls read_only_disk lat lon 12 "green"
              [("ip", JStr "8.8.8.8"); ("city", JStr "Mountain View");
               ("loc", JStr "37.4,-122.08")] (fresh []))
    as (w' & Hrun & Heff & Hout & _).
  exists w'. split; [exact Hrun |]. rewrite Heff, Hout. split; reflexivity.
Defined.

Lemma other_choices_stay_offline_witness :
  offline (fresh ["12"; "green"])
    (snd (dispatch API_KEY healthy setup_session mountain_view 5
            (fresh ["12"; "green"]))).
Proof.
  apply (other_choices_stay_offline API_KEY healthy setup_session mountain_view 5
           (fresh ["12"; "green"])
           (fst (dispatch API_KEY healthy setup_session mountain_view 5
                   (fresh ["12"; "green"])))).
  - lia.
  - lia.
  - vm_compute. reflexivity.
Defined.

Lemma lookup_outcomes_witness :
  let w' := snd (get_ip_geolocation healthy None (Some setup_session) (fresh [])) in
  geo_cache w' !! cache_key None = Some mountain_view /\
  (forall k, k <> cache_key None -> geo_cache w' !! k = geo_cache (fresh []) !! k).
Proof.
  intros w'.
  destruct (lookup_outcomes API_KEY healthy None setup_session (fresh [])
              mountain_view w') as (_ & _ & _ & Hother & Hkey).
  - subst w'. vm_compute. reflexivity.
  - split; [apply Hkey; discriminate | exact Hother].
Defined.

Lemma location_needs_one_comma_witness :
  render_map healthy (JDict [("loc", JStr "1,2,3")]) (fresh [])
    = (Ok tt, add_stdout [T "Error: Could not extract location data."] (fresh [])).
Proof.
  apply (location_needs_one_comma healthy [("loc", JStr "1,2,3")] "1,2,3" (fresh [])).
  - discriminate.
  - reflexivity.
  - vm_compute. lia.
Defined.

Lemma non_dict_value_ends_session_witness :
  let wg := snd (get_ip_geolocation list_body None (Some setup_session) (fresh [])) in
  locate API_KEY list_body setup_session None JNull (fresh [])
    = (Raise AttributeError,
       add_stdout [T (nl ++ "=== Geolocation Details ===")%string] wg) /\
  geo_cache wg !! cache_key None = Some (JList [JInt 1]).
Proof.
  intros wg.
  apply (non_dict_value_ends_session API_KEY list_body setup_session None JNull
           (fresh []) (JList [JInt 1]) wg).
  - reflexivity.
  - discriminate.
  - subst wg. vm_compute. reflexivity.
Defined.

Lemma blank_address_is_self_witness :
  dispatch API_KEY healthy setup_session JNull 2 (fresh ["   "]) =
    locate API_KEY healthy setup_session None JNull
      (add_stdout [T "Fetching geolocation for IP: "; T ""; T "..."]
         (set_stdin []
            (add_stdout [T (nl ++ "Enter IP address to geolocate: ")%string]
               (fresh ["   "])))).
Proof.
  apply (blank_address_is_self API_KEY healthy setup_session JNull "   " []
           (fresh ["   "])).
  - reflexivity.
  - reflexivity.
Defined.

Lemma locate_from_cache_witness :
  let w := snd (get_ip_geolocation healthy None (Some setup_session) (fresh [])) in
  exists w',
    locate API_KEY unavailable setup_session (Some "") JNull w
      = (Ok (Continue mountain_view), w') /\
    offline w w'.
Proof.
  intros w.
  destruct (locate_from_cache API_KEY unavailable setup_session (Some "") JNull
              [("ip", JStr "8.8.8.8"); ("city", JStr "Mountain View");
               ("loc", JStr "37.4,-122.08")] w)
    as (w' & Hrun & Hoff & _).
  - subst w. vm_compute. reflexivity.
  - discriminate.
  - by exists w'.
Defined.

Lemma render_map_raises_witness :
  fst (render_map healthy (JDict [("ip", JStr "8.8.8.8"); ("loc", JNull)]) (fresh []))
    = Raise AttributeError.
Proof.
  apply (render_map_raises healthy
           (JDict [("ip", JStr "8.8.8.8"); ("loc", JNull)]) (fresh [])).
  - right. eexists. split; [reflexivity | discriminate].
  - exists [("ip", JStr "8.8.8.8"); ("loc", JNull)], JNull.
    split; [reflexivity |]. split; [reflexivity | discriminate].
Defined.

End FurtherWitnesses.
